(** * Request pipeline of apaichon/api-design: middleware chain, rate limiter,
      circuit breaker and Redis response cache.

    The Go packages [middleware] and [cache] are embedded shallowly.  A Go
    [http.HandlerFunc] becomes a state-passing function over

    - the response writer it is handed (an interface: any type with a
      [ResponseWriter] instance), and
    - the process-wide mutable state ([World]): the clock, the rate-limiter
      registry, the circuit breaker, the Redis server and standard output.

    Strings and byte slices are Rocq strings (sequences of 8-bit characters);
    Go [int] and [time.Duration] values are [Z]; Go maps are [gmap]s.

    Requests are served one after the other, so the mutexes of the package
    have no counterpart here.  Every handler returns; the one panic of the
    pipeline, that of the server's writer on a status code it refuses, is
    recorded on the connection.  The libraries the package calls (net/http, net/url,
    crypto/sha256, time, golang.org/x/time/rate, go-redis, the serializer)
    are modelled as far as the package uses them; tracing spans are kept
    only as names in the request context. *)

From stdpp Require Import gmap strings list fin_maps sorting pretty.
From Stdlib Require Import ZArith Ascii String Lia.
From Ceres Require Import Ceres.

Local Open Scope string_scope.
Local Open Scope Z_scope.

(** ** net/http: requests, headers and response writers *)
Module Http.

(** [http.Header] and [url.Values] are both [map[string][]string]. *)
Abbreviation HeaderMap := (gmap string (list string)).

(** [textproto.CanonicalMIMEHeaderKey]: a key made of token characters
    only gets a capital first letter and a capital after every hyphen, and
    small letters elsewhere; any other key is left as it is. *)
Definition validHeaderFieldByte (c : ascii) : bool :=
  let n := N_of_ascii c in
  ((48 <=? n) && (n <=? 57) || (65 <=? n) && (n <=? 90)
   || (97 <=? n) && (n <=? 122)
   || existsb (N.eqb n) [33; 35; 36; 37; 38; 39; 42; 43; 45; 46; 94; 95; 96;
                         124; 126])%N.

Definition toUpper (c : ascii) : ascii :=
  let n := N_of_ascii c in
  if ((97 <=? n) && (n <=? 122))%N then ascii_of_N (n - 32) else c.

Definition toLower (c : ascii) : ascii :=
  let n := N_of_ascii c in
  if ((65 <=? n) && (n <=? 90))%N then ascii_of_N (n + 32) else c.

Fixpoint canonicalCase (upper : bool) (s : string) : string :=
  match s with
  | EmptyString => EmptyString
  | String c rest =>
      String (if upper then toUpper c else toLower c)
        (canonicalCase (Ascii.eqb c "-"%char) rest)
  end.

Definition CanonicalMIMEHeaderKey (s : string) : string :=
  if forallb validHeaderFieldByte (list_ascii_of_string s)
  then canonicalCase true s else s.

(** [Header.Get]: the first value stored under the canonical form of the
    key, or the empty string.  (The server stores the headers of a request
    under canonical keys.) *)
Definition Get (h : HeaderMap) (key : string) : string :=
  match h !! CanonicalMIMEHeaderKey key with
  | Some (v :: _) => v
  | _ => ""
  end.

(** [Header.Set]: replace the values of the canonical form of the key by
    the single value. *)
Definition Set_ (h : HeaderMap) (key value : string) : HeaderMap :=
  <[CanonicalMIMEHeaderKey key := [value]]> h.

(** The parts of [*http.Request] the pipeline reads.  [Query] is the
    decoded query string, one pair per parameter in the order of
    appearance; [Ctx] is the stack of tracing spans carried by the request
    context. *)
Record Request := {
  Method : string;
  Path : string;
  Query : list (string * string);
  ReqHeader : HeaderMap;
  RemoteAddr : string;
  Ctx : list string
}.

(** [r.WithContext(ctx)] for a context derived by starting a span. *)
Definition WithContext (span : string) (r : Request) : Request :=
  {| Method := Method r; Path := Path r; Query := Query r;
     ReqHeader := ReqHeader r; RemoteAddr := RemoteAddr r;
     Ctx := span :: Ctx r |}.

(** The [http.ResponseWriter] interface.  [Header] is the live header map
    of the writer and [SetHeaderMap] the effect of mutating it in place. *)
Class ResponseWriter (W : Type) := {
  Header : W -> HeaderMap;
  SetHeaderMap : HeaderMap -> W -> W;
  Write : string -> W -> W;
  WriteHeader : Z -> W -> W
}.

Definition StatusOK : Z := 200.
Definition StatusSwitchingProtocols : Z := 101.
Definition StatusNoContent : Z := 204.
Definition StatusNotModified : Z := 304.
Definition StatusTooManyRequests : Z := 429.
Definition StatusServiceUnavailable : Z := 503.

(** [checkWriteHeaderCode]: the codes [WriteHeader] does not panic on. *)
Definition checkWriteHeaderCode (code : Z) : bool :=
  (100 <=? code) && (code <=? 999).

(** The codes [WriteHeader] sends as an informational response, after
    which the header proper is still to come. *)
Definition informational (code : Z) : bool :=
  (100 <=? code) && (code <=? 199) && negb (code =? StatusSwitchingProtocols).

(** [bodyAllowedForStatus]. *)
Definition bodyAllowedForStatus (status : Z) : bool :=
  if (100 <=? status) && (status <=? 199) then false
  else if status =? StatusNoContent then false
  else if status =? StatusNotModified then false
  else true.

(** [strconv.ParseInt(s, 10, 64)], [None] for an error: an optional sign,
    then decimal digits, at least one, within the range of [int64]. *)
Fixpoint parseDigits (acc : Z) (s : string) : option Z :=
  match s with
  | EmptyString => Some acc
  | String c rest =>
      let n := Z.of_N (N_of_ascii c) in
      if (48 <=? n) && (n <=? 57) then parseDigits (acc * 10 + (n - 48)) rest
      else None
  end.

Definition ParseInt (s : string) : option Z :=
  match s with
  | EmptyString => None
  | String c rest =>
      let neg := Ascii.eqb c "-"%char in
      let digits := if Ascii.eqb c "+"%char || neg then rest else s in
      match digits with
      | EmptyString => None
      | _ =>
          match parseDigits 0 digits with
          | None => None
          | Some un =>
              if neg then if 2 ^ 63 <? un then None else Some (- un)
              else if 2 ^ 63 <=? un then None else Some un
          end
      end
  end.

(** The writer the server hands to the outermost handler: the [response]
    of net/http, as far as the status, the headers and the body go.

    - [hdr] is the header map of the handler, which it may change at any
      time;
    - [interim] lists the informational responses sent;
    - [sent] is the status and the headers as they were when the header
      was written: by the first [WriteHeader] with a code that is not
      informational, or by the [WriteHeader(200)] that the first [Write]
      implies; later [WriteHeader] calls are ignored;
    - [contentLength] is the length declared in a well-formed
      Content-Length header at that time, and [written] counts the bytes
      handed to [Write] since;
    - [body] holds the bytes that [Write] accepted: none when the status
      admits no body, none of a call that exceeds the declared length
      (to a HEAD request the server transmits the status line and the
      headers only);
    - [panicked] is set by a [WriteHeader] with a code outside 100-999
      before the header was written: net/http panics and the server drops
      the connection, so no later call reaches it.  (In Go the panic also
      ends the handler at that call; what a handler does after it in the
      model has no counterpart.) *)
Record Conn := {
  hdr : HeaderMap;
  interim : list (Z * HeaderMap);
  sent : option (Z * HeaderMap);
  contentLength : option Z;
  written : Z;
  body : string;
  panicked : bool
}.

Definition newConn : Conn :=
  {| hdr := ∅; interim := []; sent := None; contentLength := None;
     written := 0; body := ""; panicked := false |}.

(** The Content-Length the handler declared: the first value of the
    header when it parses to a number that is not negative. *)
Definition declaredLength (h : HeaderMap) : option Z :=
  match ParseInt (Get h "Content-Length") with
  | Some v => if 0 <=? v then Some v else None
  | None => None
  end.

Definition connWriteHeader (code : Z) (c : Conn) : Conn :=
  if panicked c then c
  else
    match sent c with
    | Some _ => c
    | None =>
        if negb (checkWriteHeaderCode code) then
          {| hdr := hdr c; interim := interim c; sent := None;
             contentLength := contentLength c; written := written c;
             body := body c; panicked := true |}
        else if informational code then
          {| hdr := hdr c; interim := (interim c ++ [(code, hdr c)])%list;
             sent := None; contentLength := contentLength c;
             written := written c; body := body c; panicked := false |}
        else
          let cl := Get (hdr c) "Content-Length" in
          let declared := declaredLength (hdr c) in
          {| hdr := match declared with
                    | Some _ => hdr c
                    | None => if String.eqb cl "" then hdr c
                              else delete "Content-Length" (hdr c)
                    end;
             interim := interim c; sent := Some (code, hdr c);
             contentLength := declared; written := written c;
             body := body c; panicked := false |}
    end.

Definition connWrite (b : string) (c : Conn) : Conn :=
  if panicked c then c
  else
    let c' := connWriteHeader StatusOK c in
    let lenData := Z.of_nat (String.length b) in
    match sent c' with
    | None => c'
    | Some (status, _) =>
        if lenData =? 0 then c'
        else if negb (bodyAllowedForStatus status) then c'
        else
          let total := written c' + lenData in
          let over := match contentLength c' with
                      | Some n => n <? total
                      | None => false
                      end in
          {| hdr := hdr c'; interim := interim c'; sent := sent c';
             contentLength := contentLength c'; written := total;
             body := if over then body c' else body c' ++ b;
             panicked := false |}
    end.

#[export] Instance Conn_writer : ResponseWriter Conn := {
  Header := hdr;
  SetHeaderMap h c :=
    if panicked c then c
    else {| hdr := h; interim := interim c; sent := sent c;
            contentLength := contentLength c; written := written c;
            body := body c; panicked := false |};
  Write := connWrite;
  WriteHeader := connWriteHeader
}.

(** A connection whose header map is [h]; whose header has been written
    with [code] and no declared length; that has panicked. *)
Definition withHeaders (h : HeaderMap) (c : Conn) : Conn :=
  {| hdr := h; interim := interim c; sent := sent c;
     contentLength := contentLength c; written := written c;
     body := body c; panicked := false |}.

Definition headerSent (code : Z) (c : Conn) : Conn :=
  {| hdr := hdr c; interim := interim c; sent := Some (code, hdr c);
     contentLength := None; written := written c;
     body := body c; panicked := false |}.

Definition refused (c : Conn) : Conn :=
  {| hdr := hdr c; interim := interim c; sent := None;
     contentLength := contentLength c; written := written c;
     body := body c; panicked := true |}.

(** The response of the server: status and headers as sent, and the
    body. *)
Definition delivered (c : Conn) : option (Z * HeaderMap) * string :=
  (sent c, body c).

End Http.
Export Http.

(** ** net/url: query values and their encoding *)
Module Url.

Definition hexUpper : string := "0123456789ABCDEF".

Definition hexDigit (digits : string) (n : N) : ascii :=
  match String.get (N.to_nat n) digits with
  | Some c => c
  | None => "0"%char
  end.

Definition isAlnum (c : ascii) : bool :=
  let n := N_of_ascii c in
  ((48 <=? n) && (n <=? 57) || (65 <=? n) && (n <=? 90)
   || (97 <=? n) && (n <=? 122))%N.

(** [shouldEscape(c, encodeQueryComponent)]: only unreserved characters
    stay as they are. *)
Definition shouldEscape (c : ascii) : bool :=
  if isAlnum c then false
  else match c with
       | "-"%char | "_"%char | "."%char | "~"%char => false
       | _ => true
       end.

(** [url.QueryEscape]. *)
Fixpoint QueryEscape (s : string) : string :=
  match s with
  | EmptyString => EmptyString
  | String c rest =>
      if shouldEscape c then
        if Ascii.eqb c " "%char then String "+"%char (QueryEscape rest)
        else
          let n := N_of_ascii c in
          String "%"%char
            (String (hexDigit hexUpper (n / 16))
               (String (hexDigit hexUpper (n mod 16)) (QueryEscape rest)))
      else String c (QueryEscape rest)
  end.

(** [r.URL.Query()]: every parameter is appended to the values of its
    name, [m[key] = append(m[key], value)]. *)
Definition appendValue (m : HeaderMap) (kv : string * string) : HeaderMap :=
  <[kv.1 := (default [] (m !! kv.1) ++ [kv.2])%list]> m.

Definition Query (r : Request) : HeaderMap :=
  fold_left appendValue (Http.Query r) ∅.

(** [Values.Del]. *)
Definition Del (v : HeaderMap) (key : string) : HeaderMap := delete key v.

(** [Values.Encode]: keys in sorted (byte-wise) order; one [key=value]
    piece per value, an ampersand before every piece but the first. *)
Definition writePiece (buf piece : string) : string :=
  if (0 <? String.length buf)%nat then buf ++ "&" ++ piece else piece.

Definition encodeKey (v : HeaderMap) (buf : string) (k : string) : string :=
  let keyEscaped := QueryEscape k in
  fold_left (fun buf x => writePiece buf (keyEscaped ++ "=" ++ QueryEscape x))
    (default [] (v !! k)) buf.

Definition sortedKeys (v : HeaderMap) : list string :=
  merge_sort String.leb (map fst (map_to_list v)).

Definition Encode (v : HeaderMap) : string :=
  fold_left (encodeKey v) (sortedKeys v) "".

End Url.

(** ** crypto/sha256 on byte strings, words as integers below 2^32 *)
Module Sha256.

Definition wrap (x : Z) : Z := x mod 2 ^ 32.
Definition add32 (x y : Z) : Z := wrap (x + y).
Definition rotr (n x : Z) : Z :=
  Z.lor (Z.shiftr x n) (wrap (Z.shiftl x (32 - n))).
Definition not32 (x : Z) : Z := Z.lxor x 0xffffffff.

Definition Ch (x y z : Z) : Z := Z.lxor (Z.land x y) (Z.land (not32 x) z).
Definition Maj (x y z : Z) : Z :=
  Z.lxor (Z.lxor (Z.land x y) (Z.land x z)) (Z.land y z).
Definition Sigma0 (x : Z) : Z := Z.lxor (Z.lxor (rotr 2 x) (rotr 13 x)) (rotr 22 x).
Definition Sigma1 (x : Z) : Z := Z.lxor (Z.lxor (rotr 6 x) (rotr 11 x)) (rotr 25 x).
Definition sigma0 (x : Z) : Z := Z.lxor (Z.lxor (rotr 7 x) (rotr 18 x)) (Z.shiftr x 3).
Definition sigma1 (x : Z) : Z := Z.lxor (Z.lxor (rotr 17 x) (rotr 19 x)) (Z.shiftr x 10).

(** The round constants and the initial state are the first 32 bits of the
    fractional parts of the cube roots of the first 64 primes, and of the
    square roots of the first 8. *)
Definition isPrime (n : Z) : bool :=
  forallb (fun d => negb (n mod d =? 0)) (seqZ 2 (n - 2)).

Definition primes : list Z := List.filter isPrime (seqZ 2 310).

(** The largest [r] below [2 ^ bits] with [r ^ e <= n], found bit by bit. *)
Fixpoint root (e n : Z) (bits : nat) (r : Z) : Z :=
  match bits with
  | O => r
  | S b =>
      let c := r + 2 ^ Z.of_nat b in
      root e n b (if c ^ e <=? n then c else r)
  end.

Definition K : list Z :=
  Eval vm_compute in map (fun p => wrap (root 3 (p * 2 ^ 96) 36 0)) primes.

Definition init : list Z :=
  Eval vm_compute in
    map (fun p => wrap (root 2 (p * 2 ^ 64) 36 0)) (take 8 primes).

Definition bytesOf (s : string) : list Z :=
  map (fun c => Z.of_N (N_of_ascii c)) (list_ascii_of_string s).

(** Big-endian bytes of [x], [n] of them. *)
Fixpoint bigEndian (n : nat) (x : Z) : list Z :=
  match n with
  | O => []
  | S m => (bigEndian m (x / 256) ++ [x mod 256])%list
  end.

(** The message followed by 0x80, zero bytes up to 56 modulo 64, and the
    bit length on eight bytes. *)
Definition pad (msg : list Z) : list Z :=
  let len := Z.of_nat (List.length msg) in
  let zeros := Z.to_nat ((55 - len) mod 64) in
  (msg ++ [0x80] ++ replicate zeros 0 ++ bigEndian 8 (8 * len))%list.

Fixpoint words (fuel : nat) (bs : list Z) : list Z :=
  match fuel, bs with
  | S f, b0 :: b1 :: b2 :: b3 :: rest =>
      (((b0 * 256 + b1) * 256 + b2) * 256 + b3) :: words f rest
  | _, _ => []
  end.

(** Message schedule, most recent word first. *)
Fixpoint schedule (n : nat) (w : list Z) : list Z :=
  match n with
  | O => w
  | S m =>
      let x := add32 (add32 (sigma1 (nth 1 w 0)) (nth 6 w 0))
                     (add32 (sigma0 (nth 14 w 0)) (nth 15 w 0)) in
      schedule m (x :: w)
  end.

Definition round (s : list Z) (kw : Z * Z) : list Z :=
  match s with
  | [a; b; c; d; e; f; g; h] =>
      let t1 := add32 (add32 (add32 h (Sigma1 e)) (Ch e f g))
                      (add32 kw.1 kw.2) in
      let t2 := add32 (Sigma0 a) (Maj a b c) in
      [add32 t1 t2; a; b; c; add32 d t1; e; f; g]
  | _ => s
  end.

Definition block (h : list Z) (ws : list Z) : list Z :=
  let w := rev (schedule 48 (rev ws)) in
  zip_with add32 h (fold_left round (zip K w) h).

Fixpoint blocks (fuel : nat) (h : list Z) (ws : list Z) : list Z :=
  match fuel with
  | O => h
  | S f =>
      match ws with
      | [] => h
      | _ => blocks f (block h (take 16 ws)) (drop 16 ws)
      end
  end.

(** [sha256.Sum256]: the digest as 32 bytes. *)
Definition sum (s : string) : list Z :=
  let bs := pad (bytesOf s) in
  let ws := words (List.length bs) bs in
  flat_map (bigEndian 4) (blocks (List.length ws) init ws).

End Sha256.

(** ** time: instants and durations in nanoseconds *)
Module Time.

(** A [time.Time] is the number of nanoseconds since the zero time; a
    [time.Duration] is a signed 64-bit count of nanoseconds. *)
Definition maxDuration : Z := 2 ^ 63 - 1.
Definition minDuration : Z := - 2 ^ 63.
Definition Second : Z := 1000000000.
Definition Minute : Z := 60 * Second.

(** [t.Sub(u)]: the difference, saturating at the ends of the range. *)
Definition Sub (t u : Z) : Z := Z.max minDuration (Z.min maxDuration (t - u)).

(** [time.Since(t)] when the clock reads [now]. *)
Definition Since (now t : Z) : Z := Sub now t.

End Time.

(** ** The mutable state shared by all requests *)

(** A token bucket of golang.org/x/time/rate (a dependency of the package,
    modelled after its documented algorithm): [limit] tokens are added per
    second up to [burst]; [tokens] counts in units of 10^-9 token, so the
    refill over a whole number of nanoseconds is exact. *)
Record Limiter := {
  limit : Z;
  burst : Z;
  tokens : Z;
  last : Z
}.

(** [middleware.CircuitBreaker] without its mutex. *)
Record CircuitBreaker := {
  failureThreshold : Z;
  resetTimeout : Z;
  failures : Z;
  lastFailure : Z
}.

(** The Redis server behind [redis.Client]: whether it can be reached, and
    for every key the stored bytes with the expiration passed to [Set].
    Entries are not aged: a read is looked at right after the write it
    follows. *)
Record Redis := {
  reachable : bool;
  kv : gmap string (string * Z)
}.

Record World := {
  clock : Z;
  limiters : gmap string Limiter;
  breaker : CircuitBreaker;
  redis : Redis;
  stdout : list string
}.

Definition setLimiters (m : gmap string Limiter) (g : World) : World :=
  {| clock := clock g; limiters := m; breaker := breaker g;
     redis := redis g; stdout := stdout g |}.

Definition setBreaker (b : CircuitBreaker) (g : World) : World :=
  {| clock := clock g; limiters := limiters g; breaker := b;
     redis := redis g; stdout := stdout g |}.

Definition setRedis (rd : Redis) (g : World) : World :=
  {| clock := clock g; limiters := limiters g; breaker := breaker g;
     redis := rd; stdout := stdout g |}.

Definition setClock (t : Z) (g : World) : World :=
  {| clock := t; limiters := limiters g; breaker := breaker g;
     redis := redis g; stdout := stdout g |}.

(** [fmt.Printf]: one more line on standard output. *)
Definition Printf (line : string) (g : World) : World :=
  {| clock := clock g; limiters := limiters g; breaker := breaker g;
     redis := redis g; stdout := (stdout g ++ [line])%list |}.

(** ** golang.org/x/time/rate *)
Module Rate.

Definition nano : Z := 1000000000.

(** [rate.NewLimiter(r, b)]: the bucket starts full. *)
Definition NewLimiter (r b : Z) : Limiter :=
  {| limit := r; burst := b; tokens := b * nano; last := 0 |}.

(** [advance]: the token count at time [t], before anything is taken. *)
Definition advance (t : Z) (lim : Limiter) : Z :=
  let last := if t <? last lim then t else last lim in
  let elapsed := Time.Sub t last in
  Z.min (burst lim * nano) (tokens lim + elapsed * limit lim).

(** [lim.Allow()] at time [t]: take one token if one is there.  The state
    changes only when the request is allowed.  (The library counts tokens
    in float64 and truncates the wait for a missing fraction of a token to
    whole nanoseconds, so that it may grant a request up to a nanosecond
    before the token is whole; the count here is exact, and the two agree
    whenever the refill since the last grant is a whole number of tokens,
    zero included.) *)
Definition Allow (t : Z) (lim : Limiter) : bool * Limiter :=
  let tokens := advance t lim - nano in
  if (0 <=? tokens) && (1 <=? burst lim) then
    (true, {| limit := limit lim; burst := burst lim;
              tokens := tokens; last := t |})
  else (false, lim).

End Rate.

(** ** package middleware *)
Module Middleware.

(** [http.HandlerFunc] over a state [S]; the response writer is any
    implementation of the interface. *)
Definition HandlerFunc (S : Type) : Type :=
  forall (W : Type), ResponseWriter W -> Request -> W -> S -> W * S.

Definition Middleware (S : Type) : Type := HandlerFunc S -> HandlerFunc S.

(** [Chain]: on every request the handlers are wrapped from the last
    middleware down to the first, then the outermost one is called. *)
Definition Chain {S : Type} (middlewares : list (Middleware S)) : Middleware S :=
  fun final W _ r w s =>
    let last := fold_left (fun last m => m last) (rev middlewares) final in
    last W _ r w s.

Definition quote : string := String (ascii_of_nat 34) EmptyString.

Definition hex : string := "0123456789abcdef".

Definition backslash : ascii := ascii_of_nat 92.

(** String literals of [encoding/json] as [json.Marshal] writes them, with
    its HTML escaping: the quote and the backslash behind a backslash, the
    short forms of backspace, form feed, newline, return and tab (those of
    backspace and form feed since Go 1.22), and the six-character form for
    the other control characters and for the less-than sign, the
    greater-than sign and the ampersand.  Bytes from 0x80 on are copied,
    as the encoder copies text in UTF-8 (it escapes only U+2028 and U+2029
    and replaces bytes that are not UTF-8). *)
Fixpoint jsonEscape (s : string) : string :=
  match s with
  | EmptyString => EmptyString
  | String c rest =>
      let n := N_of_ascii c in
      let short (l : ascii) := String backslash (String l (jsonEscape rest)) in
      if ((n =? 34) || (n =? 92))%N then short c
      else if (n =? 8)%N then short "b"%char
      else if (n =? 12)%N then short "f"%char
      else if (n =? 10)%N then short "n"%char
      else if (n =? 13)%N then short "r"%char
      else if (n =? 9)%N then short "t"%char
      else if ((n <? 32) || (n =? 60) || (n =? 62) || (n =? 38))%N then
        String backslash
          (String "u"%char
             (String "0"%char
                (String "0"%char
                   (String (Url.hexDigit hex (n / 16))
                      (String (Url.hexDigit hex (n mod 16))
                         (jsonEscape rest))))))
      else String c (jsonEscape rest)
  end.

Definition jsonString (s : string) : string := quote ++ jsonEscape s ++ quote.

(** The response wrapper; [Data] is never set by the error path. *)
Record Response := {
  Status : Z;
  Message : string;
  Error : string
}.

(** [json.Marshal] of a [Response] whose [Data] is nil: [data] is omitted,
    and so is [error] when empty. *)
Definition marshalResponse (p : Response) : string :=
  "{" ++ jsonString "status" ++ ":" ++ pretty (Status p)
      ++ "," ++ jsonString "message" ++ ":" ++ jsonString (Message p)
      ++ (if String.eqb (Error p) "" then ""
          else "," ++ jsonString "error" ++ ":" ++ jsonString (Error p))
      ++ "}".

Definition respondWithJSON {W} `{ResponseWriter W}
    (w : W) (code : Z) (payload : Response) : W :=
  let response := marshalResponse payload in
  let w := SetHeaderMap (Set_ (Header w) "Content-Type" "application/json") w in
  let w := WriteHeader code w in
  Write response w.

Definition respondWithError {W} `{ResponseWriter W}
    (w : W) (code : Z) (message : string) : W :=
  respondWithJSON w code {| Status := code; Message := "error"; Error := message |}.

(** *** Rate limiting *)

Definition NewRateLimiter : gmap string Limiter := ∅.

(** [getLimiter]: the limiter of the key, created on first use with one
    token per second and a burst of ten. *)
Definition getLimiter (key : string) (g : World) : Limiter * World :=
  match limiters g !! key with
  | Some limiter => (limiter, g)
  | None =>
      let limiter := Rate.NewLimiter 1 10 in
      (limiter, setLimiters (<[key := limiter]> (limiters g)) g)
  end.

(** [limiter.Allow()] on the limiter that [getLimiter] returned for
    [key].  The registry holds pointers and [Allow] changes the limiter in
    place: the registry shows the change when the limiter is registered
    under the key, and a limiter that is not registered is lost with the
    request. *)
Definition allow (key : string) (limiter : Limiter) (g : World) : bool * World :=
  let '(ok, limiter') := Rate.Allow (clock g) limiter in
  (ok, setLimiters (alter (fun _ => limiter') key (limiters g)) g).

Definition WithRateLimit : Middleware World :=
  fun next W _ r w g =>
    let key := RemoteAddr r in
    let '(limiter, g) := getLimiter key g in
    let '(ok, g) := allow key limiter g in
    if negb ok then
      (respondWithError w StatusTooManyRequests "Rate limit exceeded", g)
    else
      next W _ (WithContext "check-rate-limit" r) w g.

(** *** Circuit breaker *)

Definition NewCircuitBreaker (threshold timeout : Z) : CircuitBreaker :=
  {| failureThreshold := threshold; resetTimeout := timeout;
     failures := 0; lastFailure := 0 |}.

(** [cb.isOpen()] when the clock reads [now]. *)
Definition isOpen (now : Z) (cb : CircuitBreaker) : bool * CircuitBreaker :=
  if failureThreshold cb <=? failures cb then
    if resetTimeout cb <? Time.Since now (lastFailure cb) then
      (false, {| failureThreshold := failureThreshold cb;
                 resetTimeout := resetTimeout cb;
                 failures := 0; lastFailure := lastFailure cb |})
    else (true, cb)
  else (false, cb).

Definition WithCircuitBreaker : Middleware World :=
  fun next W _ r w g =>
    let '(open, cb) := isOpen (clock g) (breaker g) in
    let g := setBreaker cb g in
    if open then
      (respondWithError w StatusServiceUnavailable
         "Service temporarily unavailable", g)
    else
      next W _ (WithContext "check-circuit" r) w g.

(** The server loop: every request is served in turn on a connection of
    its own; the connections are returned in the order of the requests. *)
Fixpoint serve (h : HandlerFunc World) (rs : list Request) (g : World)
    : list Conn * World :=
  match rs with
  | [] => ([], g)
  | r :: rs =>
      let '(c, g) := h Conn _ r newConn g in
      let '(cs, g) := serve h rs g in
      (c :: cs, g)
  end.

End Middleware.

(** ** package cache *)
Module Cache.
Import Middleware.

(** A Go [(value, error)] result. *)
Inductive result (A : Type) :=
| Ok (a : A)
| Err (msg : string).
Arguments Ok {A} a.
Arguments Err {A} msg.

(** [CachedResponse]: the cached response data. *)
Record CachedResponse := {
  Status : Z;
  Headers : HeaderMap;
  Body : string
}.

(** The [Serializer] interface, on the only type the package stores. *)
Class Serializer := {
  Marshal : CachedResponse -> result string;
  Unmarshal : string -> result CachedResponse
}.

(** The strategy selected in the configuration, as far as [WithCache]
    distinguishes it. *)
Inductive StrategyKind := IsWriteThrough | IsOther.

Record CacheConfig := {
  TTL : Z;
  KeyPrefix : string;
  IgnoreParams : list string;
  ExcludePaths : list string;
  Strategy : StrategyKind;
  InvalidateOn : list string
}.

(** [NewRedisCache]: a zero TTL becomes fifteen minutes. *)
Definition NewRedisCache (config : CacheConfig) : CacheConfig :=
  if TTL config =? 0 then
    {| TTL := 15 * Time.Minute; KeyPrefix := KeyPrefix config;
       IgnoreParams := IgnoreParams config; ExcludePaths := ExcludePaths config;
       Strategy := Strategy config; InvalidateOn := InvalidateOn config |}
  else config.

(** [CacheResponseWriter]: the embedded writer, the captured body and the
    captured status. *)
Record CacheResponseWriter (W : Type) := {
  inner : W;
  cbody : string;
  status : Z
}.
Arguments inner {W} _.
Arguments cbody {W} _.
Arguments status {W} _.

Definition NewCacheResponseWriter {W} (w : W) : CacheResponseWriter W :=
  {| inner := w; cbody := ""; status := 0 |}.

(** [Header] is promoted from the embedded writer; [Write] and
    [WriteHeader] record and forward. *)
#[export] Instance CacheResponseWriter_writer {W} `{ResponseWriter W} :
    ResponseWriter (CacheResponseWriter W) := {
  Header cw := Header (inner cw);
  SetHeaderMap h cw :=
    {| inner := SetHeaderMap h (inner cw); cbody := cbody cw; status := status cw |};
  Write b cw :=
    {| inner := Write b (inner cw); cbody := cbody cw ++ b; status := status cw |};
  WriteHeader code cw :=
    {| inner := WriteHeader code (inner cw); cbody := cbody cw; status := code |}
}.

Definition hexLower : string := "0123456789abcdef".

(** The [%x] verb on a byte slice. *)
Definition hexBytes (bs : list Z) : string :=
  string_of_list_ascii
    (flat_map (fun b => [Url.hexDigit hexLower (Z.to_N (b / 16));
                         Url.hexDigit hexLower (Z.to_N (b mod 16))]) bs).

(** [GetKey]: prefix, method, path and the encoded query without the
    ignored parameters; hashed when longer than 200 bytes. *)
Definition GetKey (config : CacheConfig) (r : Request) : string :=
  let query := fold_left Url.Del (IgnoreParams config) (Url.Query r) in
  let key := KeyPrefix config ++ ":" ++ Method r ++ ":" ++ Path r ++ ":"
             ++ Url.Encode query in
  if (200 <? String.length key)%nat then
    KeyPrefix config ++ ":hash:" ++ hexBytes (Sha256.sum key)
  else key.

(** [ShouldCache]. *)
Definition ShouldCache (config : CacheConfig) (r : Request) : bool :=
  if negb (String.eqb (Method r) "GET") then false
  else if existsb (fun path => String.prefix path (Path r)) (ExcludePaths config)
  then false
  else if String.eqb (Get (ReqHeader r) "Cache-Control") "no-cache" then false
  else true.

(** *** The Redis client *)

(** Stands for the error of a client that cannot reach the server. *)
Definition connErr : string := "dial tcp: connection refused".

(** [client.Set(ctx, key, data, ttl).Err()]. *)
Definition redisSet (key data : string) (ttl : Z) (rd : Redis) : option string * Redis :=
  if reachable rd then
    (None, {| reachable := true; kv := <[key := (data, ttl)]> (kv rd) |})
  else (Some connErr, rd).

(** [client.Get(ctx, key).Bytes()]; [Ok None] stands for [redis.Nil]. *)
Definition redisGet (key : string) (rd : Redis) : result (option string) :=
  if reachable rd then Ok (fst <$> kv rd !! key) else Err connErr.

(** [client.Del(ctx, key).Err()]. *)
Definition redisDel (key : string) (rd : Redis) : option string * Redis :=
  if reachable rd then
    (None, {| reachable := true; kv := delete key (kv rd) |})
  else (Some connErr, rd).

Section WithSerializer.
Context `{Serializer}.

(** [Store]: the returned error is [None] for nil. *)
Definition Store (config : CacheConfig) (key : string) (value : CachedResponse)
    (g : World) : option string * World :=
  match Marshal value with
  | Err err => (Some ("failed to marshal cache data: " ++ err), g)
  | Ok data =>
      let '(err, rd) := redisSet key data (TTL config) (redis g) in
      (err, setRedis rd g)
  end.

(** [Fetch]: [Ok None] is the [(nil, nil)] of an absent key. *)
Definition Fetch (key : string) (g : World) : result (option CachedResponse) :=
  match redisGet key (redis g) with
  | Err err => Err err
  | Ok None => Ok None
  | Ok (Some data) =>
      match Unmarshal data with
      | Err err => Err ("failed to unmarshal cache data: " ++ err)
      | Ok response => Ok (Some response)
      end
  end.

Definition Invalidate (key : string) (g : World) : option string * World :=
  let '(err, rd) := redisDel key (redis g) in (err, setRedis rd g).

(** The loop [for k, v := range response.Headers { w.Header()[k] = v }]. *)
Definition replayHeaders (headers into : HeaderMap) : HeaderMap :=
  map_fold (fun k v h => <[k := v]> h) into headers.

(** [CacheAside.Apply]. *)
Definition CacheAside (config : CacheConfig) : Middleware World :=
  fun next W _ r w g =>
    if negb (ShouldCache config r) then next W _ r w g
    else
      let key := GetKey config r in
      match Fetch key g with
      | Ok (Some response) =>
          let w := SetHeaderMap (replayHeaders (Headers response) (Header w)) w in
          let w := WriteHeader (Status response) w in
          (Write (Body response) w, g)
      | _ =>
          let cw := NewCacheResponseWriter w in
          let '(cw, g) := next (CacheResponseWriter W) _ r cw g in
          let w := inner cw in
          let response := {| Status := status cw; Headers := Header w;
                             Body := cbody cw |} in
          match Store config key response g with
          | (Some err, g) =>
              (w, Printf ("Cache storage error: " ++ err ++ String (ascii_of_nat 10) "") g)
          | (None, g) => (w, g)
          end
      end.

(** [WriteThrough.Apply]. *)
Definition WriteThrough (config : CacheConfig) : Middleware World :=
  fun next W _ r w g =>
    if negb (String.eqb (Method r) "GET") then
      let key := GetKey config r in
      let cw := NewCacheResponseWriter w in
      let '(cw, g) := next (CacheResponseWriter W) _ r cw g in
      let w := inner cw in
      if status cw =? StatusOK then
        let response := {| Status := status cw; Headers := Header w;
                           Body := cbody cw |} in
        (w, (Store config key response g).2)
      else (w, g)
    else CacheAside config next W _ r w g.

(** [WithCache]: the pattern is chosen by the configured strategy. *)
Definition WithCache (config : CacheConfig) : Middleware World :=
  let cache := NewRedisCache config in
  fun next =>
    match Strategy config with
    | IsWriteThrough => WriteThrough cache next
    | IsOther => CacheAside cache next
    end.

End WithSerializer.

(** A serializer to run the model with.  The interface leaves the wire
    format open; S-expressions stand in for MessagePack here. *)
Definition toWire (v : CachedResponse) : Z * (list (string * list string) * string) :=
  (Status v, (map_to_list (Headers v), Body v)).

Definition ofWire (x : Z * (list (string * list string) * string)) : CachedResponse :=
  {| Status := x.1; Headers := list_to_map x.2.1; Body := x.2.2 |}.

Definition SexpSerializer : Serializer := {|
  Marshal v := Ok (to_string (toWire v));
  Unmarshal data :=
    match from_string data with
    | inr x => Ok (ofWire x)
    | inl _ => Err "malformed cache entry"
    end
|}.

End Cache.

(** ** Notions used to state the properties *)
Module Spec.
Import Middleware Cache.

(** The values of parameter [k] in a query, in order of appearance. *)
Definition valuesOf (k : string) (q : list (string * string)) : list string :=
  (filter (fun p => p.1 = k) q).*2.

(** The key before it is shortened by hashing. *)
Definition rawKey (config : CacheConfig) (r : Request) : string :=
  KeyPrefix config ++ ":" ++ Method r ++ ":" ++ Path r ++ ":"
  ++ Url.Encode (fold_left Url.Del (IgnoreParams config) (Url.Query r)).

(** The change of the registry when the limiter of [key] gives a token. *)
Definition takeToken (key : string) (g : World) : World :=
  let '(limiter, g) := getLimiter key g in (allow key limiter g).2.

(** Every request handed to [next], each on its own connection, after one
    token of [key] has been taken for it. *)
Fixpoint forwardAll (next : HandlerFunc World) (key : string)
    (rs : list Request) (g : World) : list Conn * World :=
  match rs with
  | [] => ([], g)
  | r :: rs =>
      let '(c, g) := next Conn _ (WithContext "check-rate-limit" r) newConn
                       (takeToken key g) in
      let '(cs, g) := forwardAll next key rs g in
      (c :: cs, g)
  end.

(** The answer of the rate limiter to a request it rejects. *)
Definition rejected : Conn :=
  respondWithError newConn StatusTooManyRequests "Rate limit exceeded".

(** The entry built from a capturing writer after the handler returned. *)
Definition captured {W} `{ResponseWriter W} (cw : CacheResponseWriter W)
    : CachedResponse :=
  {| Status := status cw; Headers := Header (inner cw); Body := cbody cw |}.

(** What a hit writes to the caller's writer. *)
Definition replay {W} `{ResponseWriter W} (response : CachedResponse) (w : W) : W :=
  Write (Body response)
    (WriteHeader (Status response)
       (SetHeaderMap (Headers response ∪ Header w) w)).

(** The line printed when [Store] fails. *)
Definition logStoreError (out : option string * World) : World :=
  match out.1 with
  | Some err =>
      Printf ("Cache storage error: " ++ err ++ String (ascii_of_nat 10) "") out.2
  | None => out.2
  end.

(** What an interceptor may do with a request: answer it itself, or hand
    a request and a writer to the rest of the chain once and finish with
    what comes back. *)
Inductive Decision (St W : Type) : Type :=
| Stop (w : W) (s : St)
| Forward (W' : Type) (i' : ResponseWriter W') (r' : Request) (w' : W') (s' : St)
          (k : W' -> St -> W * St).
Arguments Stop {St W} w s.
Arguments Forward {St W} W' i' r' w' s' k.

Definition Interceptor (St : Type) : Type :=
  forall (W : Type), ResponseWriter W -> Request -> W -> St -> Decision St W.

(** The middleware of an interceptor. *)
Definition run {St} (ic : Interceptor St) : Middleware St :=
  fun next W i r w s =>
    match ic W i r w s with
    | Stop w' s' => (w', s')
    | Forward W' i' r' w' s' k =>
        let '(w'', s'') := next W' i' r' w' s' in k w'' s''
    end.






(** The middlewares of the package as interceptors. *)
Definition rateLimitI : Interceptor World :=
  fun W i r w g =>
    let key := RemoteAddr r in
    let '(limiter, g) := getLimiter key g in
    let '(ok, g) := allow key limiter g in
    if negb ok then
      Stop (respondWithError w StatusTooManyRequests "Rate limit exceeded") g
    else Forward W i (WithContext "check-rate-limit" r) w g (fun w g => (w, g)).

Definition breakerI : Interceptor World :=
  fun W i r w g =>
    let '(open, cb) := isOpen (clock g) (breaker g) in
    let g := setBreaker cb g in
    if open then
      Stop (respondWithError w StatusServiceUnavailable
              "Service temporarily unavailable") g
    else Forward W i (WithContext "check-circuit" r) w g (fun w g => (w, g)).

Definition cacheAsideI `{Serializer} (config : CacheConfig) : Interceptor World :=
  fun W i r w g =>
    if negb (ShouldCache config r) then Forward W i r w g (fun w g => (w, g))
    else
      match Fetch (GetKey config r) g with
      | Ok (Some response) => Stop (replay response w) g
      | _ =>
          Forward (CacheResponseWriter W) _ r (NewCacheResponseWriter w) g
            (fun cw g =>
               (inner cw,
                logStoreError (Store config (GetKey config r) (captured cw) g)))
      end.

End Spec.

(** ** Sample configurations, requests, handlers and states *)
Module Samples.
Import Middleware Cache Spec.

Definition sampleConfig : CacheConfig :=
  {| TTL := 0; KeyPrefix := "api"; IgnoreParams := ["_t"];
     ExcludePaths := ["/admin"]; Strategy := IsWriteThrough;
     InvalidateOn := ["POST"; "PUT"; "DELETE"] |}.

(** The configuration as the cache holds it, with the default TTL. *)
Definition config : CacheConfig := NewRedisCache sampleConfig.

Definition request (method path : string) (q : list (string * string))
    (h : HeaderMap) : Request :=
  {| Method := method; Path := path; Query := q; ReqHeader := h;
     RemoteAddr := "10.0.0.1:5000"; Ctx := [] |}.

Definition getContacts : Request := request "GET" "/contacts" [] ∅.
Definition postContacts : Request := request "POST" "/contacts" [] ∅.

Definition reordered1 : Request :=
  request "GET" "/contacts" [("b", "1"); ("_t", "99"); ("a", "2")] ∅.
Definition reordered2 : Request :=
  request "GET" "/contacts" [("a", "2"); ("b", "1"); ("_t", "7"); ("_t", "8")] ∅.

Definition repeated1 : Request :=
  request "GET" "/contacts" [("tag", "x"); ("tag", "y")] ∅.
Definition repeated2 : Request :=
  request "GET" "/contacts" [("tag", "y"); ("tag", "x")] ∅.

Definition adminRequest : Request := request "GET" "/admin/users" [] ∅.
Definition noCacheRequest : Request :=
  request "GET" "/contacts" [] {["Cache-Control" := ["no-cache"]]}.

(** A state in which nothing has happened yet: no limiter, a breaker with
    threshold 3 and timeout 30s, an empty Redis within reach. *)
Definition cold : World :=
  {| clock := 64000000000 * Time.Second; limiters := NewRateLimiter;
     breaker := NewCircuitBreaker 3 (30 * Time.Second);
     redis := {| reachable := true; kv := ∅ |}; stdout := [] |}.

Definition offline : World :=
  setRedis {| reachable := false; kv := ∅ |} cold.

Definition listing : CachedResponse :=
  {| Status := 200; Headers := {["Content-Type" := ["application/json"]]};
     Body := "[1,2]" |}.

Definition warm : World :=
  (@Store SexpSerializer config (GetKey config getContacts) listing cold).2.

(** A breaker that has reached its threshold at second 1000. *)
Definition tripped : CircuitBreaker :=
  {| failureThreshold := 3; resetTimeout := 30 * Time.Second;
     failures := 3; lastFailure := 1000 * Time.Second |}.

Definition trippedWorld : World :=
  setBreaker tripped (setClock (1010 * Time.Second) cold).

(** An origin handler that leaves a line on standard output whenever it
    runs, sets a header and answers 200. *)
Definition origin (body : string) : HandlerFunc World :=
  fun W _ r w g =>
    let w := SetHeaderMap (Set_ (Header w) "Content-Type" "application/json") w in
    (Write body (WriteHeader StatusOK w), Printf "origin called" g).

(** An origin handler that fails. *)
Definition failing : HandlerFunc World :=
  fun W _ r w g => (Write "boom" (WriteHeader 500 w), g).

(** An origin handler that writes a body and never calls [WriteHeader]. *)
Definition writeOnly (body : string) : HandlerFunc World :=
  fun W _ r w g => (Write body w, g).

Definition pipeline : list (Interceptor World) :=
  [rateLimitI; breakerI; @cacheAsideI SexpSerializer config].

End Samples.

(** ** Handlers given by what they write *)
Module Script.
Import Middleware Cache Spec.

(** The calls a handler makes on its writer: [w.Header().Set(k, v)],
    [w.WriteHeader(code)] and [w.Write(b)]. *)
Inductive WOp :=
| OpSetHeader (key value : string)
| OpWriteHeader (code : Z)
| OpWrite (b : string).

Definition applyOp {W} `{ResponseWriter W} (w : W) (op : WOp) : W :=
  match op with
  | OpSetHeader key value => SetHeaderMap (Set_ (Header w) key value) w
  | OpWriteHeader code => WriteHeader code w
  | OpWrite b => Write b w
  end.

Definition applyOps {W} `{ResponseWriter W} (ops : list WOp) (w : W) : W :=
  fold_left applyOp ops w.

(** A handler that decides from the request and the state what to write and
    how the state changes, and never reads its writer back. *)
Definition scripted (f : Request -> World -> list WOp * World) : HandlerFunc World :=
  fun W _ r w g => let '(ops, g') := f r g in (applyOps ops w, g').

(** All the bytes written, in order. *)
Fixpoint written (ops : list WOp) : string :=
  match ops with
  | [] => ""
  | OpWrite b :: ops => b ++ written ops
  | _ :: ops => written ops
  end.

(** The code of the last [WriteHeader] call, [s] when there is none. *)
Fixpoint lastStatus (s : Z) (ops : list WOp) : Z :=
  match ops with
  | [] => s
  | OpWriteHeader code :: ops => lastStatus code ops
  | _ :: ops => lastStatus s ops
  end.

(** The header map after the calls. *)
Fixpoint headersAfter (h : HeaderMap) (ops : list WOp) : HeaderMap :=
  match ops with
  | [] => h
  | OpSetHeader key value :: ops => headersAfter (Set_ h key value) ops
  | _ :: ops => headersAfter h ops
  end.

(** Whether a handler calls [WriteHeader], and whether it calls [Write]. *)
Definition callsWriteHeader (ops : list WOp) : bool :=
  existsb (fun op => match op with OpWriteHeader _ => true | _ => false end) ops.

Definition callsWrite (ops : list WOp) : bool :=
  existsb (fun op => match op with OpWrite _ => true | _ => false end) ops.

End Script.

(** ** Well-behaved responses *)
Module Orderly.
Import Middleware Cache Spec Script.

(** The calls of a handler that sets its headers, calls [WriteHeader] once
    and then writes the body. *)
Definition orderly (hs : list (string * string)) (code : Z) (bs : list string)
    : list WOp :=
  (map (fun kv => OpSetHeader kv.1 kv.2) hs
     ++ OpWriteHeader code :: map OpWrite bs)%list.

(** The header map after [w.Header().Set] for every pair. *)
Definition setAll (hs : list (string * string)) (h : HeaderMap) : HeaderMap :=
  fold_left (fun h kv => Set_ h kv.1 kv.2) hs h.

(** The chunks of a body, joined. *)
Fixpoint joined (bs : list string) : string :=
  match bs with
  | [] => ""
  | b :: bs => b ++ joined bs
  end.

End Orderly.

(** ** More samples *)
Module MoreSamples.
Import Middleware Cache Spec Samples Script Orderly.

(** The sample origin handler, by what it writes. *)
Definition listContacts (r : Request) (g : World) : list WOp * World :=
  (orderly [("Content-Type", "application/json")] StatusOK ["[3"; "]"],
   Printf "origin called" g).

Definition listingEntry : CachedResponse :=
  {| Status := StatusOK; Headers := setAll [("Content-Type", "application/json")] ∅;
     Body := joined ["[3"; "]"] |}.

(** Requests that carry the no-cache directive otherwise than as the
    whole first value of the header. *)
Definition noCacheNoStore : Request :=
  request "GET" "/contacts" [] {["Cache-Control" := ["no-cache, no-store"]]}.
Definition capitalNoCache : Request :=
  request "GET" "/contacts" [] {["Cache-Control" := ["No-Cache"]]}.
Definition secondLineNoCache : Request :=
  request "GET" "/contacts" [] {["Cache-Control" := ["max-age=0"; "no-cache"]]}.

(** A handler that writes as [GetContact] of the contact controller does
    for a contact it finds: [json.NewEncoder(w).Encode] hands the encoded
    contact and a newline to [Write], and [WriteHeader] is not called.
    The contact is taken to encode as the empty object, and the handler
    leaves a line on standard output by which its runs are counted. *)
Definition contactJson : string := "{}" ++ String (ascii_of_nat 10) "".

Definition showContact (r : Request) (g : World) : list WOp * World :=
  ([OpWrite contactJson], Printf "origin called" g).

Definition getContact7 : Request := request "GET" "/contacts/7" [] ∅.

(** Two requests with the same parameters in another order. *)
Definition shuffled1 : Request :=
  request "GET" "/contacts" [("b", "1"); ("a", "2"); ("b", "3")] ∅.
Definition shuffled2 : Request :=
  request "GET" "/contacts" [("a", "2"); ("b", "1"); ("b", "3")] ∅.

(** A handler that answers a creation with 201. *)
Definition createContact (r : Request) (g : World) : list WOp * World :=
  (orderly [("Content-Type", "application/json")] 201 ["{}"],
   Printf "origin called" g).

(** The answer of the circuit breaker to a request it rejects. *)
Definition unavailable : Conn :=
  respondWithError newConn StatusServiceUnavailable "Service temporarily unavailable".

(** The sample state after one client has used up its burst, and the same
    state one second later. *)
Definition exhausted : World :=
  (serve (WithRateLimit (origin "[]")) (replicate 10 getContacts) cold).2.

Definition emptyBucket : Limiter :=
  {| limit := 1; burst := 10; tokens := 0; last := clock cold |}.

Definition later : World := setClock (clock cold + Time.Second) exhausted.

(** The sample breaker once the timeout has passed, and cleared. *)
Definition expiredWorld : World :=
  setBreaker tripped (setClock (1031 * Time.Second) cold).

Definition cleared (cb : CircuitBreaker) : CircuitBreaker :=
  {| failureThreshold := failureThreshold cb; resetTimeout := resetTimeout cb;
     failures := 0; lastFailure := lastFailure cb |}.

End MoreSamples.

(** ** Separators *)
Module Token.
Import Url.

(** Whether a character occurs in a string. *)
Fixpoint occurs (sep : ascii) (s : string) : bool :=
  match s with
  | EmptyString => false
  | String c rest => Ascii.eqb c sep || occurs sep rest
  end.

(** A colon never occurs in an HTTP method, whose characters are those of
    a token. *)
Definition hasColon (s : string) : bool := occurs ":"%char s.

(** One [key=value] piece of an encoded query. *)
Definition piece (kv : string * string) : string :=
  QueryEscape kv.1 ++ "=" ++ QueryEscape kv.2.

(** The pieces after the first, each behind its ampersand. *)
Fixpoint amp (ps : list string) : string :=
  match ps with
  | [] => ""
  | p :: ps => "&" ++ p ++ amp ps
  end.

Definition joinPieces (ps : list string) : string :=
  match ps with
  | [] => ""
  | p :: ps => p ++ amp ps
  end.

(** The name and value of every piece of [Encode], in the order written. *)
Definition pairsOf (v : HeaderMap) : list (string * string) :=
  flat_map (fun k => map (pair k) (default [] (v !! k))) (sortedKeys v).

(** Reading back the first character of an escaped string. *)
Definition unhex (c : ascii) : N :=
  let n := N_of_ascii c in
  (if n <? 58 then n - 48 else n - 55)%N.

Definition unescapeHead (s : string) : option (ascii * string) :=
  match s with
  | EmptyString => None
  | String c t =>
      if Ascii.eqb c "+"%char then Some (" "%char, t)
      else if Ascii.eqb c "%"%char then
        match t with
        | String x (String y t) =>
            Some (ascii_of_N (16 * unhex x + unhex y), t)
        | _ => None
        end
      else Some (c, t)
  end.

End Token.


(** ** package middleware: monitoring and logging *)
Module Telemetry.
Import Middleware Script.

(** [statusWriter]: the embedded writer and the status passed to
    [WriteHeader]. *)
Record statusWriter (W : Type) := {
  embedded : W;
  status : Z
}.
Arguments embedded {W} _.
Arguments status {W} _.

(** Only [WriteHeader] is overridden; [Header] and [Write] are promoted
    from the embedded writer. *)
#[export] Instance statusWriter_writer {W} `{ResponseWriter W} :
    ResponseWriter (statusWriter W) := {
  Header sw := Header (embedded sw);
  SetHeaderMap h sw :=
    {| embedded := SetHeaderMap h (embedded sw); status := status sw |};
  Write b sw := {| embedded := Write b (embedded sw); status := status sw |};
  WriteHeader code sw :=
    {| embedded := WriteHeader code (embedded sw); status := code |}
}.

(** The arguments of one [log.Printf] call of [WithLogging]: method, path,
    status, duration and remote address. *)
Record LogLine := {
  lineMethod : string;
  linePath : string;
  lineStatus : Z;
  lineDuration : Z;
  lineIP : string
}.

(** The state of the process: the shared state of the handlers, the lines
    given to the logger, and the two Prometheus collectors, a counter by
    method, endpoint and status and the observed durations by method and
    endpoint.  (A duration is kept in nanoseconds; the histogram is given
    its value in seconds.) *)
Record Process := {
  world : World;
  logged : list LogLine;
  httpRequestsTotal : gmap (string * string * string) nat;
  httpRequestDuration : gmap (string * string) (list Z)
}.

Definition setWorld (x : World) (g : Process) : Process :=
  {| world := x; logged := logged g;
     httpRequestsTotal := httpRequestsTotal g;
     httpRequestDuration := httpRequestDuration g |}.

Definition logPrintf (line : LogLine) (g : Process) : Process :=
  {| world := world g; logged := (logged g ++ [line])%list;
     httpRequestsTotal := httpRequestsTotal g;
     httpRequestDuration := httpRequestDuration g |}.




Definition WithLogging : Middleware Process :=
  fun next W _ r w g =>
    let start := clock (world g) in
    let sw := {| embedded := w; status := 0 |} in
    let r := WithContext "log-request" r in
    let '(sw, g) := next (statusWriter W) _ r sw g in
    let duration := Time.Since (clock (world g)) start in
    (embedded sw,
     logPrintf {| lineMethod := Method r; linePath := Path r;
                  lineStatus := status sw; lineDuration := duration;
                  lineIP := RemoteAddr r |} g).

(** A handler of the pipeline, which knows nothing of the logger and of
    the collectors, run in the process. *)
Definition onWorld (h : HandlerFunc World) : HandlerFunc Process :=
  fun W _ r w g => let '(w, x) := h W _ r w (world g) in (w, setWorld x g).




Definition start (x : World) : Process :=
  {| world := x; logged := []; httpRequestsTotal := ∅;
     httpRequestDuration := ∅ |}.

End Telemetry.

(** ** Samples for monitoring and logging *)
Module TelemetrySamples.
Import Middleware Spec Samples Script Telemetry.

(** A handler that writes its body without calling [WriteHeader]. *)
Definition ping (r : Request) (g : World) : list WOp * World :=
  ([OpSetHeader "Content-Type" "text/plain"; OpWrite "pong"], g).

(** The process when it starts on the sample state, and on the state
    whose breaker is open. *)
Definition fresh : Process := start cold.
Definition degraded : Process := start trippedWorld.

End TelemetrySamples.

(** ** package contact: validation of a contact *)
Module Contact.

(** [sql.NullString] and [sql.NullInt64]. *)
Record NullString := {
  Str : string;
  StrValid : bool
}.

Record NullInt64 := {
  Int64 : Z;
  IntValid : bool
}.

(** The fields of [Contact] declared in the package; validation reads
    nothing of the embedded base model. *)
Record Contact := {
  FirstName : NullString;
  LastName : NullString;
  Email : NullString;
  Phone : NullString;
  ContactTypeID : NullInt64;
  CategoryID : NullInt64
}.

(** What the package takes from its libraries: [strings.TrimSpace],
    [strings.ToLower], and whether [validate.Var(s, "email")] returns
    nil. *)
Class Library := {
  TrimSpace : string -> string;
  ToLower : string -> string;
  isEmail : string -> bool
}.

Definition ErrInvalidEmail : string := "valid email address is required".
Definition ErrInvalidPhone : string := "phone number must be in E.164 format".

Definition isDigit (c : ascii) : bool :=
  let n := N_of_ascii c in ((48 <=? n) && (n <=? 57))%N.

(** The regular expression of [validateE164]: a plus sign, a digit from 1
    to 9, then one to fourteen digits, and nothing else. *)
Definition matchE164 (s : string) : bool :=
  match s with
  | String c (String d rest) =>
      Ascii.eqb c "+"%char
      && (isDigit d && negb (Ascii.eqb d "0"%char))
      && ((1 <=? String.length rest)%nat && (String.length rest <=? 14)%nat)
      && forallb isDigit (list_ascii_of_string rest)
  | _ => false
  end.

(** [validateE164], the validation registered under the tag [e164]. *)
Definition validateE164 (phone : string) : bool :=
  if String.eqb phone "" then true else matchE164 phone.

Section WithLibrary.
Context `{Library}.

(** Errors are their messages; [None] is nil. *)
Definition validateStringField (field : NullString) (fieldName : string)
    (minLen maxLen : Z) : option string :=
  if negb (StrValid field) || String.eqb (TrimSpace (Str field)) "" then
    Some (fieldName ++ " is required")
  else
    let length := Z.of_nat (String.length (TrimSpace (Str field))) in
    if (length <? minLen) || (maxLen <? length) then
      Some (fieldName ++ " must be between " ++ pretty minLen ++ " and "
              ++ pretty maxLen ++ " characters")
    else None.

Definition validateEmail (email : NullString) : option string :=
  if negb (StrValid email) || String.eqb (TrimSpace (Str email)) "" then
    Some ErrInvalidEmail
  else if negb (isEmail (Str email)) then Some ErrInvalidEmail
  else None.

Definition validatePhone (phone : NullString) : option string :=
  if negb (StrValid phone) || String.eqb (Str phone) "" then None
  else if negb (validateE164 (Str phone)) then Some ErrInvalidPhone
  else None.

Definition validateRequiredID (id : NullInt64) (fieldName : string)
    : option string :=
  if negb (IntValid id) || (Int64 id <=? 0) then
    Some (fieldName ++ " is required and must be positive")
  else None.

(** [Validate]: the first error, field by field. *)
Definition Validate (c : Contact) : option string :=
  match validateStringField (FirstName c) "first name" 2 100 with
  | Some err => Some err
  | None =>
  match validateStringField (LastName c) "last name" 2 100 with
  | Some err => Some err
  | None =>
  match validateEmail (Email c) with
  | Some err => Some err
  | None =>
  match validatePhone (Phone c) with
  | Some err => Some err
  | None =>
  match validateRequiredID (ContactTypeID c) "contact type ID" with
  | Some err => Some err
  | None => validateRequiredID (CategoryID c) "category ID"
  end end end end end.

(** The loop of [ValidateContacts], from index [i] on. *)
Fixpoint validateFrom (i : nat) (contacts : list Contact) : option string :=
  match contacts with
  | [] => None
  | contact :: contacts =>
      match Validate contact with
      | Some err =>
          Some ("invalid contact at index " ++ pretty (Z.of_nat i) ++ ": " ++ err)
      | None => validateFrom (S i) contacts
      end
  end.

Definition ValidateContacts (contacts : list Contact) : option string :=
  if (List.length contacts =? 0)%nat then Some "contacts list cannot be empty"
  else validateFrom 0 contacts.

(** Replacing every match of the pattern that excludes the plus sign and
    the digits by nothing. *)
Fixpoint keepPhone (s : string) : string :=
  match s with
  | EmptyString => EmptyString
  | String c rest =>
      if Ascii.eqb c "+"%char || isDigit c then String c (keepPhone rest)
      else keepPhone rest
  end.

Definition mapValid (f : string -> string) (field : NullString) : NullString :=
  if StrValid field then {| Str := f (Str field); StrValid := true |}
  else field.

(** [Sanitize], as the contact it leaves behind. *)
Definition Sanitize (c : Contact) : Contact :=
  {| FirstName := mapValid TrimSpace (FirstName c);
     LastName := mapValid TrimSpace (LastName c);
     Email := mapValid (fun s => TrimSpace (ToLower s)) (Email c);
     Phone := mapValid (fun s => keepPhone (TrimSpace s)) (Phone c);
     ContactTypeID := ContactTypeID c;
     CategoryID := CategoryID c |}.

Definition IsComplete (c : Contact) : bool :=
  StrValid (FirstName c) && negb (String.eqb (Str (FirstName c)) "")
  && (StrValid (LastName c) && negb (String.eqb (Str (LastName c)) ""))
  && (StrValid (Email c) && negb (String.eqb (Str (Email c)) ""))
  && (IntValid (ContactTypeID c) && (0 <? Int64 (ContactTypeID c)))
  && (IntValid (CategoryID c) && (0 <? Int64 (CategoryID c))).

End WithLibrary.

End Contact.

(** ** Sample contacts *)
Module ContactSamples.
Import Contact.

Definition isSpace (c : ascii) : bool :=
  let n := N_of_ascii c in ((n =? 32) || (9 <=? n) && (n <=? 13))%N.

Fixpoint trimLeft (s : string) : string :=
  match s with
  | String c rest => if isSpace c then trimLeft rest else s
  | EmptyString => EmptyString
  end.

Definition reverse (s : string) : string :=
  string_of_list_ascii (rev (list_ascii_of_string s)).

Definition lower (c : ascii) : ascii :=
  let n := N_of_ascii c in
  if ((65 <=? n) && (n <=? 90))%N then ascii_of_N (n + 32) else c.

(** The library on ASCII text; an address counts as an email address
    here when it contains an at sign. *)
Definition asciiLibrary : Library :=
  {| TrimSpace s := reverse (trimLeft (reverse (trimLeft s)));
     ToLower s := string_of_list_ascii (map lower (list_ascii_of_string s));
     isEmail s := Token.occurs "@"%char s |}.

Definition some (s : string) : NullString := {| Str := s; StrValid := true |}.
Definition id (n : Z) : NullInt64 := {| Int64 := n; IntValid := true |}.

Definition ada : Contact :=
  {| FirstName := some "Ada"; LastName := some "Lovelace";
     Email := some "ada@example.org"; Phone := some "+442071234567";
     ContactTypeID := id 1; CategoryID := id 2 |}.

(** A contact whose last name is too short, and one typed carelessly. *)
Definition nameless : Contact :=
  {| FirstName := some "Bob"; LastName := some " B ";
     Email := some "bob@example.org"; Phone := some "";
     ContactTypeID := id 1; CategoryID := id 2 |}.

Definition careless : Contact :=
  {| FirstName := some "  Grace "; LastName := some "Hopper";
     Email := some " Grace@Example.org"; Phone := some " +1 (555) 010-9999 ";
     ContactTypeID := id 1; CategoryID := id 2 |}.

End ContactSamples.
(** * Properties *)

(** Closes an equation between closed terms by evaluating both sides. *)
Ltac by_vm :=
  lazymatch goal with
  | |- ?x = _ => vm_cast_no_check (@eq_refl _ x)
  end.

(** ** The server's writer, call by call *)
Module ConnFacts.

Lemma no_length_declared (h : HeaderMap) :
  Get h "Content-Length" = "" -> declaredLength h = None.
Proof. unfold declaredLength. by intros ->. Qed.

Lemma body_allowed_final status :
  bodyAllowedForStatus status = true -> informational status = false.
Proof.
  unfold bodyAllowedForStatus, informational.
  by destruct ((100 <=? status) && (status <=? 199)).
Qed.

Lemma connWriteHeader_panicked code c :
  panicked c = true -> connWriteHeader code c = c.
Proof. unfold connWriteHeader. by intros ->. Qed.

Lemma connWrite_panicked b c : panicked c = true -> connWrite b c = c.
Proof. unfold connWrite. by intros ->. Qed.

Lemma connWriteHeader_sent code c x :
  sent c = Some x -> connWriteHeader code c = c.
Proof. unfold connWriteHeader. intros ->. by destruct (panicked c). Qed.

(** A code that is final and that the server accepts writes the header,
    when none was written and no length is declared. *)
Lemma connWriteHeader_final code c :
  panicked c = false -> sent c = None ->
  checkWriteHeaderCode code = true -> informational code = false ->
  Get (hdr c) "Content-Length" = "" ->
  connWriteHeader code c = headerSent code c.
Proof.
  intros Hp Hs Hcode Hinf Hcl. unfold connWriteHeader, headerSent.
  rewrite Hp, Hs, Hcode, Hinf, Hcl, (no_length_declared _ Hcl). by cbn.
Qed.

(** Whatever is declared, such a code is the status sent. *)
Lemma connWriteHeader_status code c :
  panicked c = false -> sent c = None ->
  checkWriteHeaderCode code = true -> informational code = false ->
  sent (connWriteHeader code c) = Some (code, hdr c)
  /\ panicked (connWriteHeader code c) = false.
Proof.
  intros Hp Hs Hcode Hinf. unfold connWriteHeader.
  by rewrite Hp, Hs, Hcode, Hinf.
Qed.

Lemma connWriteHeader_refused code c :
  panicked c = false -> sent c = None ->
  checkWriteHeaderCode code = false ->
  connWriteHeader code c = refused c.
Proof.
  intros Hp Hs Hcode. unfold connWriteHeader, refused.
  by rewrite Hp, Hs, Hcode.
Qed.

(** Once the header is written with a status that admits a body and no
    declared length, every [Write] is accepted. *)
Lemma connWrite_accepted b c code h :
  panicked c = false -> sent c = Some (code, h) ->
  bodyAllowedForStatus code = true -> contentLength c = None ->
  hdr (connWrite b c) = hdr c
  /\ interim (connWrite b c) = interim c
  /\ sent (connWrite b c) = Some (code, h)
  /\ contentLength (connWrite b c) = None
  /\ body (connWrite b c) = body c ++ b
  /\ panicked (connWrite b c) = false.
Proof.
  intros Hp Hs Hbody Hcl. unfold connWrite.
  rewrite Hp, (connWriteHeader_sent _ _ _ Hs), Hs, Hbody, Hcl. cbn [negb].
  destruct (Z.of_nat (String.length b) =? 0) eqn:Hlen; [|done].
  repeat split; try done. apply Z.eqb_eq in Hlen.
  destruct b; [|done]. clear. induction (body c) as [|ch rest IH]; [done|].
  change (String ch rest = String ch (rest ++ "")). by rewrite <- IH.
Qed.

(** [WriteHeader] either panics, with nothing sent, or leaves the body
    as it is. *)
Lemma connWriteHeader_cases code c :
  panicked c = false ->
  (panicked (connWriteHeader code c) = true
   /\ sent (connWriteHeader code c) = None)
  \/ (panicked (connWriteHeader code c) = false
      /\ body (connWriteHeader code c) = body c).
Proof.
  intros Hp. unfold connWriteHeader. rewrite Hp.
  destruct (sent c) eqn:Hs; [by right|].
  destruct (checkWriteHeaderCode code); cbn [negb]; [|by left].
  by destruct (informational code); right.
Qed.

(** [Write] writes the header if need be, and appends to the body when
    the status sent admits one and no length is declared. *)
Lemma connWrite_cases b c :
  panicked c = false ->
  exists code h,
    sent (connWrite b c) = Some (code, h)
    /\ panicked (connWrite b c) = false
    /\ (bodyAllowedForStatus code = true ->
        contentLength (connWrite b c) = None ->
        body (connWrite b c) = body c ++ b).
Proof.
  intros Hp.
  assert (Hnil : forall t : string, t = t ++ "").
  { induction t as [|ch rest IH]; [done|].
    change (String ch rest = String ch (rest ++ "")). by rewrite <- IH. }
  assert (Hhead : exists code h,
            sent (connWriteHeader StatusOK c) = Some (code, h)
            /\ panicked (connWriteHeader StatusOK c) = false
            /\ body (connWriteHeader StatusOK c) = body c).
  { unfold connWriteHeader. rewrite Hp.
    destruct (sent c) as [[code h]|] eqn:Hs; [by exists code, h|].
    by exists StatusOK, (hdr c). }
  destruct Hhead as (code & h & Hs & Hp' & Hb).
  exists code, h. unfold connWrite. rewrite Hp, Hs.
  destruct (Z.of_nat (String.length b) =? 0) eqn:Hlen.
  { repeat split; try done. intros _ _. rewrite Hb.
    apply Z.eqb_eq in Hlen. destruct b; [apply Hnil | done]. }
  destruct (bodyAllowedForStatus code) eqn:Hallowed; cbn [negb].
  - cbn [sent panicked contentLength body]. repeat split.
    intros _ ->. by rewrite Hb.
  - repeat split; done.
Qed.

End ConnFacts.

(** ** Known answers of the hash *)
Module Sha256Facts.
Import Cache.

Example constants :
  List.length Sha256.K = 64%nat
  /\ Sha256.K !! 0%nat = Some 0x428a2f98
  /\ Sha256.K !! 63%nat = Some 0xc67178f2
  /\ Sha256.init !! 0%nat = Some 0x6a09e667
  /\ Sha256.init !! 7%nat = Some 0x5be0cd19.
Proof. repeat split; by_vm. Qed.

Example sum_abc :
  hexBytes (Sha256.sum "abc")
  = "ba7816bf8f01cfea414140de5dae2223b00361a396177a9cb410ff61f20015ad".
Proof. vm_compute. reflexivity. Qed.

Example sum_empty :
  hexBytes (Sha256.sum "")
  = "e3b0c44298fc1c149afbf4c8996fb92427ae41e4649b934ca495991b7852b855".
Proof. vm_compute. reflexivity. Qed.

Example sum_two_blocks :
  hexBytes (Sha256.sum "abcdbcdecdefdefgefghfghighijhijkijkljklmklmnlmnomnopnopq")
  = "248d6a61d20638b8e5c026930c3e6039a33ce45964ff2167f6ecedd419db06c1".
Proof. vm_compute. reflexivity. Qed.

End Sha256Facts.

(** ** Query values *)
Module UrlFacts.
Import Url Spec.

Lemma appendValue_lookup m kv k :
  appendValue m kv !! k
  = if decide (kv.1 = k) then Some (default [] (m !! k) ++ [kv.2])%list
    else m !! k.
Proof.
  unfold appendValue. destruct (decide (kv.1 = k)) as [<-|Hne].
  - by rewrite lookup_insert_eq.
  - by rewrite lookup_insert_ne.
Qed.

Lemma fold_appendValue_lookup q : forall (m : HeaderMap) k,
  fold_left appendValue q m !! k
  = match valuesOf k q with
    | [] => m !! k
    | vs => Some (default [] (m !! k) ++ vs)%list
    end.
Proof.
  unfold valuesOf. induction q as [|kv q IH]; intros m k; [done|].
  cbn [fold_left]. rewrite IH, appendValue_lookup, filter_cons.
  destruct (decide (kv.1 = k)) as [Heq|Hne]; [|done].
  rewrite fmap_cons.
  destruct ((filter (fun p => p.1 = k) q).*2); simpl; [done|].
  by rewrite <- app_assoc.
Qed.

(** [r.URL.Query()] maps every name that occurs to its values in order. *)
Lemma Query_lookup r k :
  Query r !! k
  = match valuesOf k (Http.Query r) with [] => None | vs => Some vs end.
Proof.
  unfold Query. rewrite fold_appendValue_lookup, lookup_empty.
  by destruct (valuesOf k (Http.Query r)).
Qed.

Lemma fold_Del_lookup ps : forall (m : HeaderMap) k,
  fold_left Del ps m !! k = if decide (k ∈ ps) then None else m !! k.
Proof.
  induction ps as [|p ps IH]; intros m k; cbn [fold_left].
  - case_decide as Hin; [by apply elem_of_nil in Hin | done].
  - rewrite IH. unfold Del.
    destruct (decide (k ∈ ps)) as [Hin|Hnin];
      destruct (decide (k ∈ p :: ps)) as [Hin'|Hnin']; try done.
    + exfalso. apply Hnin'. by right.
    + apply elem_of_cons in Hin' as [->|?]; [|done].
      apply lookup_delete_eq.
    + apply lookup_delete_ne. intros ->. apply Hnin'. by left.
Qed.

End UrlFacts.

(** ** Cache keys and cacheability *)
Module KeyFacts.
Import Cache Spec Samples UrlFacts.

(** The query without the ignored parameters depends only on the values,
    in order, of each parameter that is not ignored. *)
Lemma filtered_query_eq config r1 r2 :
  (forall k, k ∉ IgnoreParams config ->
     valuesOf k (Http.Query r1) = valuesOf k (Http.Query r2)) ->
  fold_left Url.Del (IgnoreParams config) (Url.Query r1)
  = fold_left Url.Del (IgnoreParams config) (Url.Query r2).
Proof.
  intros Hvals. apply map_eq. intros k.
  rewrite !fold_Del_lookup. case_decide as Hin; [done|].
  by rewrite !Query_lookup, (Hvals k Hin).
Qed.

(** C3, as amended: two requests with the same method and path, and in
    which every parameter that is not ignored has the same values in the
    same relative order, derive the same cache key, whatever the order in
    which parameters of different names appear and whatever the ignored
    parameters are. *)
Theorem GetKey_deterministic config r1 r2 :
  Method r1 = Method r2 ->
  Path r1 = Path r2 ->
  (forall k, k ∉ IgnoreParams config ->
     valuesOf k (Http.Query r1) = valuesOf k (Http.Query r2)) ->
  GetKey config r1 = GetKey config r2.
Proof.
  intros Hm Hp Hvals. unfold GetKey.
  by rewrite Hm, Hp, (filtered_query_eq config r1 r2 Hvals).
Qed.

(** Among parameters of distinct names at most one has a given name. *)
Lemma filter_name_short (k : string) (l : list (string * string)) :
  NoDup l.*1 -> (List.length (filter (fun p => p.1 = k) l) <= 1)%nat.
Proof.
  induction l as [|p l IH]; intros Hnd; [cbn; lia|].
  rewrite fmap_cons in Hnd. apply NoDup_cons in Hnd as [Hnotin Hnd].
  rewrite filter_cons. destruct (decide (p.1 = k)) as [Hk|Hk]; [|by apply IH].
  assert (filter (fun p => p.1 = k) l = []) as ->; [|cbn; lia].
  destruct (filter (fun p => p.1 = k) l) as [|p' l'] eqn:Hf; [done|].
  exfalso. apply Hnotin.
  assert (Hin : p' ∈ filter (fun p => p.1 = k) l) by (rewrite Hf; by left).
  apply list_elem_of_filter in Hin as [Hk' Hin]. cbn beta in Hk'.
  apply list_elem_of_fmap. exists p'. split; [congruence | done].
Qed.

(** When no parameter name that is kept is repeated, the order of the
    parameters does not matter at all. *)
Lemma GetKey_permutation config r1 r2 :
  Method r1 = Method r2 ->
  Path r1 = Path r2 ->
  filter (fun p => p.1 ∉ IgnoreParams config) (Http.Query r1)
  ≡ₚ filter (fun p => p.1 ∉ IgnoreParams config) (Http.Query r2) ->
  NoDup (filter (fun p => p.1 ∉ IgnoreParams config) (Http.Query r1)).*1 ->
  GetKey config r1 = GetKey config r2.
Proof.
  intros Hm Hp Hperm Hnd. unfold GetKey.
  rewrite Hm, Hp, (filtered_query_eq config r1 r2); [done|].
  intros k Hk. unfold valuesOf.
  assert (Hkeep : forall q : list (string * string),
    filter (fun p => p.1 = k) q
    = filter (fun p => p.1 = k) (filter (fun p => p.1 ∉ IgnoreParams config) q)).
  { intros q. rewrite list_filter_filter. apply list_filter_iff.
    intros p. split; [intros <-; done | by intros [? _]]. }
  rewrite (Hkeep (Http.Query r1)), (Hkeep (Http.Query r2)).
  assert (Hk12 : filter (fun p => p.1 = k)
                   (filter (fun p => p.1 ∉ IgnoreParams config) (Http.Query r1))
                 ≡ₚ filter (fun p => p.1 = k)
                   (filter (fun p => p.1 ∉ IgnoreParams config) (Http.Query r2)))
    by (by rewrite Hperm).
  pose proof (filter_name_short k _ Hnd) as Hlen.
  destruct (filter (fun p => p.1 = k)
              (filter (fun p => p.1 ∉ IgnoreParams config) (Http.Query r1)))
    as [|p [|p' l]]; [| |cbn in Hlen; lia].
  - by apply Permutation_nil_l in Hk12 as <-.
  - by apply Permutation_singleton_l in Hk12 as <-.
Qed.

Lemma sample_values_agree k :
  k ∉ IgnoreParams sampleConfig ->
  valuesOf k (Http.Query reordered1) = valuesOf k (Http.Query reordered2).
Proof.
  intros Hk. unfold valuesOf, reordered1, reordered2, request. cbn [Http.Query].
  rewrite !filter_cons, !filter_nil. cbn [fst].
  destruct (decide ("_t" = k)) as [<-|_].
  - exfalso. apply Hk. by left.
  - repeat case_decide; by simplify_eq.
Qed.

Lemma GetKey_deterministic_witness :
  GetKey sampleConfig reordered1 = GetKey sampleConfig reordered2.
Proof.
  apply (GetKey_deterministic sampleConfig reordered1 reordered2).
  - reflexivity.
  - reflexivity.
  - exact sample_values_agree.
Defined.

(** C3, as stated, fails: the same parameters in another order give
    another key when a name is repeated, because the values of one name are
    encoded in their order of appearance. *)
Lemma GetKey_repeated_name_order :
  Method repeated1 = Method repeated2
  /\ Path repeated1 = Path repeated2
  /\ filter (fun p => p.1 ∉ IgnoreParams sampleConfig) (Http.Query repeated1)
     ≡ₚ filter (fun p => p.1 ∉ IgnoreParams sampleConfig) (Http.Query repeated2)
  /\ GetKey sampleConfig repeated1 = "api:GET:/contacts:tag=x&tag=y"
  /\ GetKey sampleConfig repeated2 = "api:GET:/contacts:tag=y&tag=x"
  /\ GetKey sampleConfig repeated1 <> GetKey sampleConfig repeated2.
Proof.
  assert (H1 : GetKey sampleConfig repeated1 = "api:GET:/contacts:tag=x&tag=y")
    by (vm_compute; reflexivity).
  assert (H2 : GetKey sampleConfig repeated2 = "api:GET:/contacts:tag=y&tag=x")
    by (vm_compute; reflexivity).
  split; [reflexivity|]. split; [reflexivity|].
  split; [|split; [exact H1|split; [exact H2|]]].
  - unfold repeated1, repeated2, request. cbn [Http.Query].
    assert (Hkeep : "tag" ∉ IgnoreParams sampleConfig)
      by (intros Hin; apply list_elem_of_singleton in Hin; discriminate Hin).
    rewrite !filter_cons_True, !filter_nil by exact Hkeep.
    apply Permutation_swap.
  - rewrite H1, H2. discriminate.
Qed.

(** Keys of at most 200 bytes are used as they are, and then the method
    is part of the key: a request that is not a GET never has the key of a
    GET of the same path and query. *)
Lemma GetKey_raw config r :
  (String.length (rawKey config r) <= 200)%nat -> GetKey config r = rawKey config r.
Proof.
  intros Hlen. unfold GetKey. fold (rawKey config r).
  destruct (Nat.ltb_spec 200 (String.length (rawKey config r))); [lia | done].
Qed.

Lemma length_append (s t : string) :
  String.length (s ++ t) = (String.length s + String.length t)%nat.
Proof. induction s as [|c s IH]; simpl; [done | by f_equal]. Qed.

Lemma append_cancel_r (s1 s2 t : string) : s1 ++ t = s2 ++ t -> s1 = s2.
Proof.
  revert s2. induction s1 as [|c1 s1 IH]; intros [|c2 s2] Heq.
  - done.
  - exfalso. apply (f_equal String.length) in Heq.
    change (String c2 s2 ++ t) with (String c2 (s2 ++ t)) in Heq.
    change ("" ++ t) with t in Heq. cbn [String.length] in Heq.
    rewrite length_append in Heq. lia.
  - exfalso. apply (f_equal String.length) in Heq.
    change (String c1 s1 ++ t) with (String c1 (s1 ++ t)) in Heq.
    change ("" ++ t) with t in Heq. cbn [String.length] in Heq.
    rewrite length_append in Heq. lia.
  - change (String c1 (s1 ++ t) = String c2 (s2 ++ t)) in Heq.
    injection Heq as -> Heq. f_equal. by apply IH.
Qed.

Lemma GetKey_method config r1 r2 :
  Path r1 = Path r2 ->
  Http.Query r1 = Http.Query r2 ->
  (String.length (rawKey config r1) <= 200)%nat ->
  (String.length (rawKey config r2) <= 200)%nat ->
  GetKey config r1 = GetKey config r2 ->
  Method r1 = Method r2.
Proof.
  intros Hp Hq Hl1 Hl2. rewrite !GetKey_raw by done.
  unfold rawKey, Url.Query. rewrite Hp, Hq. intros Heq.
  apply (inj (String.app (KeyPrefix config))) in Heq.
  apply (inj (String.app ":")) in Heq.
  by apply append_cancel_r in Heq.
Qed.

(** Keys longer than 200 bytes are replaced by the hash of the key. *)
Example GetKey_long :
  GetKey sampleConfig
    (request "GET" "/contacts/search"
       [("q", "aaaaaaaaaaaaaaaaaaaaaaaaaaaaaaaaaaaaaaaaaaaaaaaaaaaaaaaaaaaaaaaaaaaaaaaaaaaaaaaaaaaaaaaaaaaaaaaaaaaaaaaaaaaaaaaaaaaaaaaaaaaaaaaaaaaaaaaaaaaaaaaaaaaaaaaaaaaaaaaaaaaaaaaaaaaaaaaaaaaaaaaa")] ∅)
  = "api:hash:33eed3b85c316173bb4cd2e30fd6411fd74769f113862edc4ea693792be09a76".
Proof. vm_compute. reflexivity. Qed.

(** C4, as amended: [ShouldCache] answers true only for GET requests, and
    false for every request whose path starts with an excluded prefix and
    for every request whose Cache-Control header is, in its first value,
    exactly the string no-cache, whatever the other fields of the request
    are. *)
Theorem ShouldCache_sound config r :
  (ShouldCache config r = true -> Method r = "GET")
  /\ ((exists p, p ∈ ExcludePaths config /\ String.prefix p (Path r) = true) ->
      ShouldCache config r = false)
  /\ (Get (ReqHeader r) "Cache-Control" = "no-cache" ->
      ShouldCache config r = false).
Proof.
  unfold ShouldCache. repeat split.
  - destruct (String.eqb_spec (Method r) "GET"); [done|]. simpl. discriminate.
  - intros (p & Hin & Hpre).
    destruct (negb (Method r =? "GET")%string); [done|].
    assert (existsb (fun path => String.prefix path (Path r)) (ExcludePaths config)
            = true) as ->; [|done].
    apply existsb_exists. exists p. split; [|done].
    by apply list_elem_of_In.
  - intros ->.
    destruct (negb (Method r =? "GET")%string); [done|].
    by destruct (existsb _ _).
Qed.

Lemma ShouldCache_sound_witness :
  (ShouldCache sampleConfig reordered1 = true -> Method reordered1 = "GET")
  /\ ShouldCache sampleConfig adminRequest = false
  /\ ShouldCache sampleConfig noCacheRequest = false.
Proof.
  split; [|split].
  - exact (proj1 (ShouldCache_sound sampleConfig reordered1)).
  - apply (proj1 (proj2 (ShouldCache_sound sampleConfig adminRequest))).
    exists "/admin". split; [by left | reflexivity].
  - apply (proj2 (proj2 (ShouldCache_sound sampleConfig noCacheRequest))).
    reflexivity.
Defined.

(** C4, as stated, fails: a request that carries the no-cache directive
    together with another one, one that spells it with capitals, and one
    that carries it on a second header line are all cacheable. *)
Lemma ShouldCache_directive_not_recognized :
  Method MoreSamples.noCacheNoStore = "GET"
  /\ ReqHeader MoreSamples.noCacheNoStore !! "Cache-Control"
     = Some ["no-cache, no-store"]
  /\ ShouldCache sampleConfig MoreSamples.noCacheNoStore = true
  /\ ReqHeader MoreSamples.capitalNoCache !! "Cache-Control" = Some ["No-Cache"]
  /\ ShouldCache sampleConfig MoreSamples.capitalNoCache = true
  /\ ReqHeader MoreSamples.secondLineNoCache !! "Cache-Control"
     = Some ["max-age=0"; "no-cache"]
  /\ ShouldCache sampleConfig MoreSamples.secondLineNoCache = true.
Proof. repeat split; by_vm. Qed.

End KeyFacts.

(** ** The circuit breaker *)
Module BreakerFacts.
Import Middleware Spec Samples.

Lemma Since_mono now now' t : now <= now' -> Time.Since now t <= Time.Since now' t.
Proof. unfold Time.Since, Time.Sub. lia. Qed.

Lemma isOpen_true_unchanged now cb :
  (isOpen now cb).1 = true -> (isOpen now cb).2 = cb.
Proof.
  unfold isOpen.
  destruct (failureThreshold cb <=? failures cb); [|done].
  by destruct (resetTimeout cb <? Time.Since now (lastFailure cb)).
Qed.

(** C7: the breaker blocks exactly when the failure counter has reached
    the threshold and no more than the reset timeout has passed since the
    last recorded failure; the first check after the timeout has passed
    clears the counter and allows the call, and so does every later check
    on the state it leaves. *)
Theorem isOpen_spec now cb :
  ((isOpen now cb).1 = true <->
     failureThreshold cb <= failures cb
     /\ Time.Since now (lastFailure cb) <= resetTimeout cb)
  /\ (failureThreshold cb <= failures cb ->
      resetTimeout cb < Time.Since now (lastFailure cb) ->
      (isOpen now cb).1 = false
      /\ failures (isOpen now cb).2 = 0
      /\ forall now', now <= now' -> (isOpen now' (isOpen now cb).2).1 = false).
Proof.
  split.
  - unfold isOpen.
    destruct (Z.leb_spec (failureThreshold cb) (failures cb)) as [Hth|Hth];
      [destruct (Z.ltb_spec (resetTimeout cb) (Time.Since now (lastFailure cb)))|];
      cbn [fst]; split; try discriminate; try lia; done.
  - intros Hth Hexp. unfold isOpen at 1 2 4.
    destruct (Z.leb_spec (failureThreshold cb) (failures cb)) as [_|?]; [|lia].
    destruct (Z.ltb_spec (resetTimeout cb) (Time.Since now (lastFailure cb)))
      as [_|?]; [|lia].
    cbn [fst snd failures]. repeat split.
    intros now' Hle. unfold isOpen.
    cbn [failureThreshold failures resetTimeout lastFailure].
    destruct (failureThreshold cb <=? 0); [|done].
    pose proof (Since_mono now now' (lastFailure cb) Hle).
    destruct (Z.ltb_spec (resetTimeout cb) (Time.Since now' (lastFailure cb)));
      [done | lia].
Qed.

Lemma isOpen_spec_witness :
  (isOpen (1010 * Time.Second) tripped).1 = true
  /\ (isOpen (1031 * Time.Second) tripped).1 = false
  /\ failures (isOpen (1031 * Time.Second) tripped).2 = 0.
Proof.
  split.
  - apply (proj1 (isOpen_spec (1010 * Time.Second) tripped)).
    vm_compute. split; discriminate.
  - destruct (proj2 (isOpen_spec (1031 * Time.Second) tripped)) as (H1 & H2 & _).
    + vm_compute. discriminate.
    + vm_compute. reflexivity.
    + exact (conj H1 H2).
Defined.

(** The middleware itself writes to the breaker only through [isOpen]: the
    counter is cleared or kept, never raised. *)
Lemma isOpen_failures now cb :
  failures (isOpen now cb).2 = 0 \/ (isOpen now cb).2 = cb.
Proof.
  unfold isOpen.
  destruct (failureThreshold cb <=? failures cb); [|by right].
  destruct (resetTimeout cb <? Time.Since now (lastFailure cb)); [by left | by right].
Qed.

Lemma setBreaker_same g : setBreaker (breaker g) g = g.
Proof. by destruct g. Qed.

(** With a positive threshold and no failure on record, every request is
    handed to the next handler, whatever that handler answers. *)
Lemma serve_breaker_closed next rs : forall g,
  0 < failureThreshold (breaker g) ->
  failures (breaker g) = 0 ->
  (forall W (i : ResponseWriter W) r w g,
      breaker (next W i r w g).2 = breaker g) ->
  serve (WithCircuitBreaker next) rs g
  = serve next (map (WithContext "check-circuit") rs) g.
Proof.
  intros g Hth Hf Hframe. revert g Hth Hf.
  induction rs as [|r rs IH]; intros g Hth Hf; [done|].
  cbn [serve map]. unfold WithCircuitBreaker at 1, isOpen.
  destruct (Z.leb_spec (failureThreshold (breaker g)) (failures (breaker g)));
    [lia|].
  rewrite setBreaker_same.
  pose proof (Hframe Conn _ (WithContext "check-circuit" r) newConn g) as Hb.
  destruct (next Conn _ (WithContext "check-circuit" r) newConn g) as [c g1].
  cbn [snd] in Hb. rewrite IH; [done | by rewrite Hb | by rewrite Hb].
Qed.

(** C1 on the code: behind a breaker with threshold 3 and timeout 30s, an
    origin that answers 500 four times in the same instant is called four
    times; the fourth call is not rejected, and no failure was counted. *)
Theorem breaker_counts_no_failure :
  let out := serve (WithCircuitBreaker failing) (replicate 4 getContacts) cold in
  map delivered out.1 = replicate 4 (Some (500, ∅), "boom")
  /\ failures (breaker out.2) = 0.
Proof. cbv zeta. split; by_vm. Qed.

End BreakerFacts.

(** ** The rate limiter *)
Module RateFacts.
Import Middleware Spec Samples.

Lemma Sub_self t : Time.Sub t t = 0.
Proof. unfold Time.Sub. rewrite Z.sub_diag. reflexivity. Qed.

Lemma Sub_nonneg t u : u <= t -> 0 <= Time.Sub t u.
Proof.
  intros Hle. unfold Time.Sub.
  assert (0 <= Time.maxDuration) by (vm_compute; discriminate). lia.
Qed.

(** A bucket holding [T >= 1] whole tokens gives one away, provided no
    refill can overflow it. *)
Lemma Allow_some t l T :
  0 <= limit l -> tokens l = T * Rate.nano -> 1 <= T <= burst l ->
  last l = t \/ T = burst l ->
  Rate.Allow t l
  = (true, {| limit := limit l; burst := burst l;
              tokens := (T - 1) * Rate.nano; last := t |}).
Proof.
  intros Hlim Htok HT Hlast. unfold Rate.Allow, Rate.advance.
  set (last' := if t <? last l then t else last l).
  assert (Hle : last' <= t) by (unfold last'; destruct (Z.ltb_spec t (last l)); lia).
  pose proof (Sub_nonneg t last' Hle) as He.
  assert (Hadv : Z.min (burst l * Rate.nano) (tokens l + Time.Sub t last' * limit l)
                 = T * Rate.nano).
  { destruct Hlast as [Heq|Heq].
    - assert (last' = t) as -> by (unfold last'; rewrite Heq, Z.ltb_irrefl; done).
      rewrite Sub_self. unfold Rate.nano in *. lia.
    - pose proof (Z.mul_nonneg_nonneg _ _ He Hlim). unfold Rate.nano in *. lia. }
  rewrite Hadv.
  assert ((0 <=? T * Rate.nano - Rate.nano) && (1 <=? burst l) = true) as ->.
  { apply andb_true_iff. split; [apply Z.leb_le | apply Z.leb_le];
      unfold Rate.nano; lia. }
  do 2 f_equal. unfold Rate.nano. lia.
Qed.

(** An empty bucket that has not been refilled gives nothing and stays as
    it is. *)
Lemma Allow_none t l :
  tokens l = 0 -> 0 <= burst l -> last l = t \/ burst l = 0 ->
  Rate.Allow t l = (false, l).
Proof.
  intros Htok Hb Hlast. unfold Rate.Allow, Rate.advance.
  assert (Hadv : Z.min (burst l * Rate.nano)
                   (tokens l + Time.Sub t (if t <? last l then t else last l) * limit l)
                 <= 0).
  { destruct Hlast as [Heq|Heq].
    - rewrite Heq, Z.ltb_irrefl, Sub_self, Htok. lia.
    - rewrite Heq. lia. }
  destruct (Z.leb_spec 0
    (Z.min (burst l * Rate.nano)
       (tokens l + Time.Sub t (if t <? last l then t else last l) * limit l)
     - Rate.nano)) as [Hge|_]; [|done].
  unfold Rate.nano in *. lia.
Qed.

(** Changing in place a limiter that is registered is registering the
    changed limiter. *)
Lemma alter_registered (m : gmap string Limiter) key l l' :
  m !! key = Some l -> alter (fun _ => l') key m = <[key := l']> m.
Proof.
  intros Hl. apply map_eq. intros k. destruct (decide (k = key)) as [->|Hne].
  - by rewrite lookup_alter_eq, lookup_insert_eq, Hl.
  - by rewrite lookup_alter_ne, lookup_insert_ne.
Qed.

Lemma getLimiter_registered key g :
  limiters (getLimiter key g).2 !! key = Some (getLimiter key g).1
  /\ clock (getLimiter key g).2 = clock g.
Proof.
  unfold getLimiter. destruct (limiters g !! key) eqn:Hl; cbn; [done|].
  by rewrite lookup_insert_eq.
Qed.

Lemma getLimiter_present key g l :
  limiters g !! key = Some l -> getLimiter key g = (l, g).
Proof. unfold getLimiter. by intros ->. Qed.

Lemma getLimiter_idem key g :
  getLimiter key (getLimiter key g).2 = getLimiter key g.
Proof.
  destruct (getLimiter_registered key g) as [Hreg _].
  rewrite (getLimiter_present _ _ _ Hreg). by destruct (getLimiter key g).
Qed.

Lemma WithRateLimit_registered next W (i : ResponseWriter W) r w g :
  WithRateLimit next W i r w (getLimiter (RemoteAddr r) g).2
  = WithRateLimit next W i r w g.
Proof. unfold WithRateLimit. by rewrite getLimiter_idem. Qed.

Lemma takeToken_registered key g :
  takeToken key (getLimiter key g).2 = takeToken key g.
Proof. unfold takeToken. by rewrite getLimiter_idem. Qed.

Lemma WithRateLimit_allowed next W (i : ResponseWriter W) r w g l l' :
  limiters g !! RemoteAddr r = Some l ->
  Rate.Allow (clock g) l = (true, l') ->
  WithRateLimit next W i r w g
  = next W i (WithContext "check-rate-limit" r) w (takeToken (RemoteAddr r) g)
  /\ limiters (takeToken (RemoteAddr r) g) = <[RemoteAddr r := l']> (limiters g)
  /\ clock (takeToken (RemoteAddr r) g) = clock g.
Proof.
  intros Hl Hallow. unfold WithRateLimit, takeToken.
  rewrite (getLimiter_present _ _ _ Hl). unfold allow. rewrite Hallow.
  cbn [negb snd]. by rewrite (alter_registered _ _ _ _ Hl).
Qed.

Lemma WithRateLimit_rejected next W (i : ResponseWriter W) r w g l :
  limiters g !! RemoteAddr r = Some l ->
  Rate.Allow (clock g) l = (false, l) ->
  WithRateLimit next W i r w g
  = (respondWithError w StatusTooManyRequests "Rate limit exceeded", g).
Proof.
  intros Hl Hallow. unfold WithRateLimit.
  rewrite (getLimiter_present _ _ _ Hl). unfold allow. rewrite Hallow.
  cbn [negb]. f_equal. unfold setLimiters.
  rewrite (alter_registered _ _ _ _ Hl), (insert_id _ _ _ Hl).
  by destruct g.
Qed.

Section Burst.
Variable next : HandlerFunc World.
Variable key : string.

(** The next handler leaves the limiter registry and the clock alone:
    no token is refilled while the requests are served. *)
Hypothesis next_frame : forall W (i : ResponseWriter W) r w g,
  limiters (next W i r w g).2 = limiters g
  /\ clock (next W i r w g).2 = clock g.

Lemma burst_registered rs : forall g l T r,
  limiters g !! key = Some l ->
  0 <= limit l ->
  tokens l = T * Rate.nano ->
  Z.of_nat (List.length rs) = T ->
  T <= burst l ->
  last l = clock g \/ T = burst l ->
  Forall (fun r => RemoteAddr r = key) rs ->
  RemoteAddr r = key ->
  serve (WithRateLimit next) (rs ++ [r]) g
  = (((forwardAll next key rs g).1 ++ [rejected])%list,
     (forwardAll next key rs g).2).
Proof.
  induction rs as [|r0 rs IH]; intros g l T r Hl Hlim Htok Hlen HT Hlast Hall Hr.
  - cbn in Hlen. subst T. cbn [app serve forwardAll fst snd]. subst key.
    rewrite (WithRateLimit_rejected next Conn _ r newConn g l Hl); [done|].
    apply Allow_none; [lia | lia |].
    destruct Hlast as [?|?]; [by left | right; lia].
  - apply Forall_cons in Hall as [Hr0 Hall].
    cbn [List.length] in Hlen. cbn [app serve forwardAll].
    assert (Hallow : Rate.Allow (clock g) l
             = (true, {| limit := limit l; burst := burst l;
                         tokens := (T - 1) * Rate.nano; last := clock g |})).
    { apply Allow_some; [done | done | lia | done]. }
    rewrite <- Hr0 in Hl.
    destruct (WithRateLimit_allowed next Conn _ r0 newConn g l _ Hl Hallow)
      as (Hstep & Hlims & Hclk).
    rewrite Hstep, Hr0.
    rewrite Hr0 in Hlims, Hclk.
    destruct (next_frame Conn _ (WithContext "check-rate-limit" r0) newConn
                (takeToken key g)) as [Hfl Hfc].
    destruct (next Conn _ (WithContext "check-rate-limit" r0) newConn
                (takeToken key g)) as [c g1].
    cbn [snd] in Hfl, Hfc.
    rewrite (IH g1 {| limit := limit l; burst := burst l;
                      tokens := (T - 1) * Rate.nano; last := clock g |}
                (T - 1) r);
      cbn [limit burst tokens last]; try done; try lia.
    + by destruct (forwardAll next key rs g1).
    + by rewrite Hfl, Hlims, lookup_insert_eq.
Qed.

Lemma getLimiter_burst_present g N :
  burst (getLimiter key g).1 = N -> N <> 10 -> (getLimiter key g).2 = g.
Proof.
  unfold getLimiter. destruct (limiters g !! key); [done|].
  cbn. congruence.
Qed.

(** C9: when the bucket of a client key is full with burst [N] and no
    time passes, [N] requests from that key are each handed to the next
    handler, and the request after them is answered 429 by the
    middleware itself, which leaves the state as the [N] requests left
    it. *)
Theorem rate_limit_burst (N : Z) (rs : list Request) (r : Request) (g : World) :
  Z.of_nat (List.length rs) = N ->
  Forall (fun r => RemoteAddr r = key) (rs ++ [r]) ->
  burst (getLimiter key g).1 = N ->
  tokens (getLimiter key g).1 = N * Rate.nano ->
  0 <= limit (getLimiter key g).1 ->
  serve (WithRateLimit next) (rs ++ [r]) g
  = (((forwardAll next key rs g).1 ++ [rejected])%list,
     (forwardAll next key rs g).2)
  /\ sent rejected = Some (StatusTooManyRequests,
                           {["Content-Type" := ["application/json"]]}).
Proof.
  intros Hlen Hall Hb Htok Hlim. split; [|reflexivity].
  apply Forall_app in Hall as [Hall Hr]. apply Forall_inv in Hr.
  cbn beta in Hr.
  destruct (getLimiter_registered key g) as [Hreg Hclk].
  assert (Hserve : serve (WithRateLimit next) (rs ++ [r]) (getLimiter key g).2
                   = serve (WithRateLimit next) (rs ++ [r]) g).
  { destruct rs as [|r0 rs]; cbn [app serve].
    - rewrite <- Hr at 1. by rewrite WithRateLimit_registered.
    - apply Forall_cons in Hall as [Hr0 _]. cbn beta in Hr0.
      rewrite <- Hr0 at 1. by rewrite WithRateLimit_registered. }
  assert (Hfwd : forwardAll next key rs (getLimiter key g).2
                 = forwardAll next key rs g).
  { destruct rs as [|r0 rs]; cbn [forwardAll].
    - rewrite (getLimiter_burst_present g N Hb); [done|]. cbn in Hlen. lia.
    - by rewrite takeToken_registered. }
  rewrite <- Hserve, <- Hfwd.
  apply (burst_registered rs _ (getLimiter key g).1 N r); try done; lia.
Qed.

End Burst.

Lemma rate_limit_burst_witness :
  serve (WithRateLimit (origin "[]")) (replicate 10 getContacts ++ [getContacts]) cold
  = (((forwardAll (origin "[]") "10.0.0.1:5000" (replicate 10 getContacts) cold).1
      ++ [rejected])%list,
     (forwardAll (origin "[]") "10.0.0.1:5000" (replicate 10 getContacts) cold).2)
  /\ sent rejected = Some (StatusTooManyRequests,
                           {["Content-Type" := ["application/json"]]}).
Proof.
  apply (rate_limit_burst (origin "[]") "10.0.0.1:5000"
           (fun _ _ _ _ _ => conj eq_refl eq_refl)
           10 (replicate 10 getContacts) getContacts cold).
  - reflexivity.
  - repeat constructor.
  - reflexivity.
  - reflexivity.
  - vm_compute. discriminate.
Defined.

(** The eleventh request of a new client within one instant, end to end. *)
Example eleventh_request_rejected :
  map delivered
    (serve (WithRateLimit (origin "[]")) (replicate 11 getContacts) cold).1
  = (replicate 10 (Some (200, {["Content-Type" := ["application/json"]]}), "[]")
     ++ [(Some (429, {["Content-Type" := ["application/json"]]}),
          marshalResponse {| Status := 429; Message := "error";
                             Error := "Rate limit exceeded" |})])%list.
Proof. by_vm. Qed.

End RateFacts.

(** ** The cache patterns *)
Module CacheFacts.
Import Middleware Cache Spec Samples.

Lemma replayHeaders_union (headers into : HeaderMap) :
  replayHeaders headers into = headers ∪ into.
Proof.
  unfold replayHeaders.
  apply (map_fold_weak_ind (fun acc m => acc = m ∪ into)).
  - by rewrite (left_id_L ∅ (∪)).
  - intros k v m acc Hk ->. by rewrite insert_union_l.
Qed.

Lemma append_empty_l (s : string) : "" ++ s = s.
Proof. reflexivity. Qed.

Section WithSerializer.
Context `{Serializer}.

Lemma Store_stdout config key v g : stdout (Store config key v g).2 = stdout g.
Proof.
  unfold Store. destruct (Marshal v); [|done].
  unfold redisSet. by destruct (reachable (redis g)).
Qed.

Lemma Store_ok config key v g data :
  Marshal v = Ok data ->
  reachable (redis g) = true ->
  Store config key v g
  = (None, setRedis {| reachable := true;
                       kv := <[key := (data, TTL config)]> (kv (redis g)) |} g).
Proof. intros Hm Hr. unfold Store, redisSet. by rewrite Hm, Hr. Qed.

(** [Store] fails exactly on a serialization error or when Redis cannot
    be reached, and then leaves the world as it was. *)
Lemma Store_failed config key v g err :
  (Store config key v g).1 = Some err ->
  (Store config key v g).2 = g
  /\ ((exists e, Marshal v = Err e) \/ reachable (redis g) = false).
Proof.
  unfold Store, redisSet. destruct (Marshal v) as [data|e].
  - destruct (reachable (redis g)) eqn:Hr; [done|].
    intros _. split; [by destruct g | by right].
  - intros _. split; [done | left; by exists e].
Qed.

Lemma CacheAside_hit config (next : HandlerFunc World) W (i : ResponseWriter W) r (w : W) g response :
  ShouldCache config r = true ->
  Fetch (GetKey config r) g = Ok (Some response) ->
  CacheAside config next W i r w g = (replay response w, g).
Proof.
  intros Hc Hf. unfold CacheAside, replay.
  by rewrite Hc, Hf, replayHeaders_union.
Qed.

Lemma CacheAside_miss config (next : HandlerFunc World) W (i : ResponseWriter W) r (w : W) g :
  ShouldCache config r = true ->
  (forall response, Fetch (GetKey config r) g <> Ok (Some response)) ->
  let out := next (CacheResponseWriter W) _ r (NewCacheResponseWriter w) g in
  CacheAside config next W i r w g
  = (inner out.1,
     logStoreError (Store config (GetKey config r) (captured out.1) out.2)).
Proof.
  intros Hc Hmiss out. unfold CacheAside. rewrite Hc. cbn [negb].
  destruct (Fetch (GetKey config r) g) as [[resp|]|e] eqn:Hf;
    [by destruct (Hmiss resp)| |];
    subst out; destruct (next _ _ r (NewCacheResponseWriter w) g) as [cw g1];
    unfold logStoreError, captured; cbn [fst snd];
    by destruct (Store config (GetKey config r) _ g1) as [[err|] g2].
Qed.

(** What the server's writer makes of a replay on a new connection: a
    status it accepts, with a body, goes out with the headers and the
    body; a status outside 100-999 makes it panic before anything is
    sent. *)
Lemma replay_accepted response :
  checkWriteHeaderCode (Status response) = true ->
  bodyAllowedForStatus (Status response) = true ->
  Get (Headers response) "Content-Length" = "" ->
  delivered (replay response newConn)
  = (Some (Status response, Headers response), Body response)
  /\ panicked (replay response newConn) = false.
Proof.
  intros Hcode Hbody Hcl. unfold replay, delivered.
  change (SetHeaderMap (Headers response ∪ Header newConn) newConn)
    with (withHeaders (Headers response ∪ ∅) newConn).
  rewrite (right_id_L ∅ (∪)).
  change (WriteHeader ?code ?c) with (connWriteHeader code c).
  change (Write ?b ?c) with (connWrite b c).
  rewrite ConnFacts.connWriteHeader_final; try done;
    [|by apply ConnFacts.body_allowed_final].
  destruct (ConnFacts.connWrite_accepted (Body response)
              (headerSent (Status response)
                 (withHeaders (Headers response) newConn))
              (Status response) (Headers response))
    as (_ & _ & -> & _ & -> & ->); done.
Qed.

Lemma replay_refused response :
  checkWriteHeaderCode (Status response) = false ->
  delivered (replay response newConn) = (None, "")
  /\ panicked (replay response newConn) = true.
Proof.
  intros Hcode. unfold replay, delivered.
  change (SetHeaderMap (Headers response ∪ Header newConn) newConn)
    with (withHeaders (Headers response ∪ ∅) newConn).
  change (WriteHeader ?code ?c) with (connWriteHeader code c).
  change (Write ?b ?c) with (connWrite b c).
  rewrite ConnFacts.connWriteHeader_refused by done.
  by rewrite ConnFacts.connWrite_panicked.
Qed.

(** A hit on a new connection delivers exactly the entry, when the entry
    has a status that the server accepts with a body and declares no
    length. *)
Lemma CacheAside_hit_fresh config (next : HandlerFunc World) r g response :
  ShouldCache config r = true ->
  Fetch (GetKey config r) g = Ok (Some response) ->
  checkWriteHeaderCode (Status response) = true ->
  bodyAllowedForStatus (Status response) = true ->
  Get (Headers response) "Content-Length" = "" ->
  delivered (CacheAside config next Conn _ r newConn g).1
  = (Some (Status response, Headers response), Body response).
Proof.
  intros Hc Hf Hcode Hbody Hcl. rewrite (CacheAside_hit _ _ _ _ _ _ _ _ Hc Hf).
  cbn [fst]. by destruct (replay_accepted response Hcode Hbody Hcl) as [-> _].
Qed.

(** A hit on an entry whose status the server refuses delivers nothing. *)
Lemma CacheAside_hit_refused config (next : HandlerFunc World) r g response :
  ShouldCache config r = true ->
  Fetch (GetKey config r) g = Ok (Some response) ->
  checkWriteHeaderCode (Status response) = false ->
  let hit := CacheAside config next Conn _ r newConn g in
  delivered hit.1 = (None, "") /\ panicked hit.1 = true /\ hit.2 = g.
Proof.
  intros Hc Hf Hcode hit. subst hit.
  rewrite (CacheAside_hit _ _ _ _ _ _ _ _ Hc Hf). cbn [fst snd].
  by destruct (replay_refused response Hcode) as [-> ->].
Qed.

(** After a miss the captured entry is in Redis, provided it could be
    serialized and Redis was within reach. *)
Lemma CacheAside_miss_stored config (next : HandlerFunc World) W
    (i : ResponseWriter W) r (w : W) g data :
  ShouldCache config r = true ->
  (forall response, Fetch (GetKey config r) g <> Ok (Some response)) ->
  let out := next (CacheResponseWriter W) _ r (NewCacheResponseWriter w) g in
  Marshal (captured out.1) = Ok data ->
  reachable (redis out.2) = true ->
  kv (redis (CacheAside config next W i r w g).2) !! GetKey config r
  = Some (data, TTL config).
Proof.
  intros Hc Hmiss out Hm Hr.
  rewrite (CacheAside_miss _ _ _ _ _ _ _ Hc Hmiss). fold out. cbn [snd].
  rewrite (Store_ok _ _ _ _ _ Hm Hr).
  unfold logStoreError. cbn. apply lookup_insert_eq.
Qed.

(** Cache-Aside on a cacheable request.  A hit writes the stored headers,
    status and body to the caller whatever the origin handler is (it is
    not called), and a new connection delivers exactly the stored entry
    when its status is one the server accepts with a body; a miss calls
    the origin handler through the capturing writer, hands the caller what
    the origin wrote, and stores the captured entry under the key before
    returning (the entry is in Redis whenever serialization and the
    connection succeed). *)
Lemma CacheAside_spec config r :
  ShouldCache config r = true ->
  (forall (next : HandlerFunc World) W (i : ResponseWriter W) (w : W) g response,
      Fetch (GetKey config r) g = Ok (Some response) ->
      CacheAside config next W i r w g = (replay response w, g))
  /\ (forall (next : HandlerFunc World) g response,
      Fetch (GetKey config r) g = Ok (Some response) ->
      checkWriteHeaderCode (Status response) = true ->
      bodyAllowedForStatus (Status response) = true ->
      Get (Headers response) "Content-Length" = "" ->
      delivered (CacheAside config next Conn _ r newConn g).1
      = (Some (Status response, Headers response), Body response))
  /\ (forall (next : HandlerFunc World) W (i : ResponseWriter W) (w : W) g,
      (forall response, Fetch (GetKey config r) g <> Ok (Some response)) ->
      let out := next (CacheResponseWriter W) _ r (NewCacheResponseWriter w) g in
      let after := CacheAside config next W i r w g in
      after.1 = inner out.1
      /\ after.2 = logStoreError
                     (Store config (GetKey config r) (captured out.1) out.2)
      /\ (forall data,
            Marshal (captured out.1) = Ok data ->
            reachable (redis out.2) = true ->
            kv (redis after.2) !! GetKey config r = Some (data, TTL config))).
Proof.
  intros Hc. split; [|split].
  - intros. by apply CacheAside_hit.
  - intros next g response Hf Hcode Hbody Hcl. by apply CacheAside_hit_fresh.
  - intros next W i w g Hmiss out after. subst after.
    split; [|split].
    + by rewrite (CacheAside_miss _ _ _ _ _ _ _ Hc Hmiss).
    + by rewrite (CacheAside_miss _ _ _ _ _ _ _ Hc Hmiss).
    + intros data Hm Hr. by apply CacheAside_miss_stored.
Qed.

(** On a mutating request Write-Through prints nothing, whatever [Store]
    returns. *)
Lemma WriteThrough_silent config (next : HandlerFunc World) W (i : ResponseWriter W) r (w : W) g :
  String.eqb (Method r) "GET" = false ->
  (WriteThrough config next W i r w g).1
    = inner (next (CacheResponseWriter W) _ r (NewCacheResponseWriter w) g).1
  /\ stdout (WriteThrough config next W i r w g).2
    = stdout (next (CacheResponseWriter W) _ r (NewCacheResponseWriter w) g).2.
Proof.
  intros Hm. unfold WriteThrough. rewrite Hm. cbn [negb].
  destruct (next _ _ r (NewCacheResponseWriter w) g) as [cw g1]. cbn [fst snd].
  destruct (status cw =? StatusOK); cbn [fst snd]; [|done].
  by rewrite Store_stdout.
Qed.

End WithSerializer.

Lemma cold_misses response :
  @Fetch SexpSerializer (GetKey config getContacts) cold <> Ok (Some response).
Proof. vm_compute. discriminate. Qed.

Lemma CacheAside_spec_witness :
  delivered (@CacheAside SexpSerializer config (origin "[3]") Conn _
               getContacts newConn warm).1
  = (Some (200, {["Content-Type" := ["application/json"]]}), "[1,2]")
  /\ kv (redis (@CacheAside SexpSerializer config (origin "[3]") Conn _
                  getContacts newConn cold).2) !! GetKey config getContacts
     = Some (to_string (toWire {| Status := 200;
                                  Headers := {["Content-Type" := ["application/json"]]};
                                  Body := "[3]" |}), TTL config).
Proof.
  assert (Hc : ShouldCache config getContacts = true) by (vm_compute; reflexivity).
  destruct (@CacheAside_spec SexpSerializer config getContacts Hc)
    as (_ & Hfresh & Hmiss).
  split.
  - apply (Hfresh (origin "[3]") warm listing); vm_compute; reflexivity.
  - destruct (Hmiss (origin "[3]") Conn _ newConn cold cold_misses) as (_ & _ & Hst).
    apply Hst; vm_compute; reflexivity.
Defined.

(** Two reads in a row: the origin runs once, the second answer is the
    stored copy of the first. *)
Example cache_aside_second_read :
  let out := serve (@CacheAside SexpSerializer config (origin "[3]"))
               [getContacts; getContacts] cold in
  map delivered out.1
  = replicate 2 (Some (200, {["Content-Type" := ["application/json"]]}), "[3]")
  /\ stdout out.2 = ["origin called"].
Proof. cbv zeta. split; by_vm. Qed.

(** C2 on the code: a POST that succeeds under Write-Through is stored
    under the key of the POST; the key a GET of the same path derives is
    another one, it is absent from Redis, and the GET that follows goes to
    the origin handler. *)
Theorem write_through_key_of_mutation :
  let written := @WithCache SexpSerializer sampleConfig (origin "[4]") Conn _
                   postContacts newConn cold in
  let read := @WithCache SexpSerializer sampleConfig (origin "[stale]") Conn _
                getContacts newConn written.2 in
  sent written.1 = Some (200, {["Content-Type" := ["application/json"]]})
  /\ (map_to_list (kv (redis written.2))).*1 = ["api:POST:/contacts:"]
  /\ GetKey config getContacts = "api:GET:/contacts:"
  /\ @Fetch SexpSerializer (GetKey config getContacts) written.2 = Ok None
  /\ body read.1 = "[stale]"
  /\ stdout read.2 = ["origin called"; "origin called"].
Proof. cbv zeta. repeat split; by_vm. Qed.

(** C6 on the code: with Redis out of reach, the failed [Store] of a
    Cache-Aside miss is printed, that of a Write-Through mutation is not;
    in both cases the caller receives what the origin wrote. *)
Theorem write_through_store_error_unlogged :
  let aside := @CacheAside SexpSerializer config (origin "[3]") Conn _
                 getContacts newConn offline in
  let through := @WriteThrough SexpSerializer config (origin "[4]") Conn _
                   postContacts newConn offline in
  let entry := {| Status := 200;
                  Headers := {["Content-Type" := ["application/json"]]};
                  Body := "[4]" |} in
  (@Store SexpSerializer config (GetKey config postContacts) entry offline).1
    = Some connErr
  /\ body aside.1 = "[3]"
  /\ stdout aside.2
     = ["origin called";
        "Cache storage error: " ++ connErr ++ String (ascii_of_nat 10) ""]
  /\ body through.1 = "[4]"
  /\ stdout through.2 = ["origin called"].
Proof. cbv zeta. repeat split; by_vm. Qed.

End CacheFacts.

(** ** The middleware chain *)
Module ChainFacts.
Import Middleware Spec Samples.
Import (hints) Cache.

(** *** Unfolding the chain *)

Lemma Chain_nil {St} (final : HandlerFunc St) : Chain [] final = final.
Proof. reflexivity. Qed.

Lemma Chain_cons {St} (m : Middleware St) ms final :
  Chain (m :: ms) final = m (Chain ms final).
Proof.
  unfold Chain. cbn [rev]. rewrite fold_left_app. reflexivity.
Qed.


Lemma run_eq {St} (ic : Interceptor St) next W (i : ResponseWriter W) r (w : W) s :
  run ic next W i r w s
  = match ic W i r w s with
    | Stop w' s' => (w', s')
    | Forward W' i' r' w' s' k =>
        let '(w'', s'') := next W' i' r' w' s' in k w'' s''
    end.
Proof. reflexivity. Qed.




Lemma WithRateLimit_run next W (i : ResponseWriter W) r (w : W) g :
  WithRateLimit next W i r w g = run rateLimitI next W i r w g.
Proof.
  unfold WithRateLimit, run, rateLimitI.
  destruct (getLimiter (RemoteAddr r) g) as [limiter g1].
  destruct (allow (RemoteAddr r) limiter g1) as [[|] g2]; cbn [negb]; [|done].
  by destruct (next W i (WithContext "check-rate-limit" r) w g2).
Qed.

Lemma WithCircuitBreaker_run next W (i : ResponseWriter W) r (w : W) g :
  WithCircuitBreaker next W i r w g = run breakerI next W i r w g.
Proof.
  unfold WithCircuitBreaker, run, breakerI.
  destruct (isOpen (clock g) (breaker g)) as [[|] cb]; [done|].
  by destruct (next W i (WithContext "check-circuit" r) w (setBreaker cb g)).
Qed.

Lemma CacheAside_run `{Cache.Serializer} config next W (i : ResponseWriter W)
    r (w : W) g :
  Cache.CacheAside config next W i r w g = run (cacheAsideI config) next W i r w g.
Proof.
  unfold Cache.CacheAside, run, cacheAsideI.
  destruct (Cache.ShouldCache config r); cbn [negb].
  - destruct (Cache.Fetch (Cache.GetKey config r) g) as [[response|]|err].
    + unfold replay. by rewrite CacheFacts.replayHeaders_union.
    + destruct (next _ _ r (Cache.NewCacheResponseWriter w) g) as [cw g1].
      unfold logStoreError, captured.
      by destruct (Cache.Store config _ _ g1) as [[e|] g2].
    + destruct (next _ _ r (Cache.NewCacheResponseWriter w) g) as [cw g1].
      unfold logStoreError, captured.
      by destruct (Cache.Store config _ _ g1) as [[e|] g2].
  - by destruct (next W i r w g).
Qed.

Lemma run_ext {St} (ic : Interceptor St) (next1 next2 : HandlerFunc St) :
  (forall W (i : ResponseWriter W) r (w : W) s,
      next1 W i r w s = next2 W i r w s) ->
  forall W (i : ResponseWriter W) r (w : W) s,
    run ic next1 W i r w s = run ic next2 W i r w s.
Proof.
  intros Hnext W i r w s. rewrite !run_eq.
  destruct (ic W i r w s) as [w' s'|W' i' r' w' s' k]; [done|].
  by rewrite Hnext.
Qed.

(** The chain of the three middlewares of the package is the chain of
    their interceptors. *)
Lemma pipeline_chain final W (i : ResponseWriter W) r (w : W) g :
  Chain [WithRateLimit; WithCircuitBreaker;
         @Cache.CacheAside Cache.SexpSerializer config] final W i r w g
  = Chain (map run pipeline) final W i r w g.
Proof.
  unfold pipeline. cbn [map]. rewrite !Chain_cons, !Chain_nil.
  rewrite WithRateLimit_run. apply run_ext. clear. intros W i r w g.
  rewrite WithCircuitBreaker_run. apply run_ext. clear. intros W i r w g.
  apply CacheAside_run.
Qed.


Example pipeline_open_breaker :
  delivered
    (Chain [WithRateLimit; WithCircuitBreaker;
            @Cache.WithCache Cache.SexpSerializer sampleConfig]
       (origin "[3]") Conn _ getContacts newConn trippedWorld).1
  = (Some (503, {["Content-Type" := ["application/json"]]}),
     marshalResponse {| Status := 503; Message := "error";
                        Error := "Service temporarily unavailable" |}).
Proof. by_vm. Qed.
End ChainFacts.

(** ** Store, fetch and invalidate *)
Module StoreFacts.
Import Middleware Cache Spec Samples.

Lemma append_nil_r (s : string) : s ++ "" = s.
Proof.
  induction s as [|c s IH]; [done|].
  change (String c (s ++ "") = String c s). by rewrite IH.
Qed.

Lemma append_assoc (s t u : string) : (s ++ t) ++ u = s ++ (t ++ u).
Proof.
  induction s as [|c s IH]; [done|].
  change (String c ((s ++ t) ++ u) = String c (s ++ (t ++ u))). by rewrite IH.
Qed.

Section WithSerializer.
Context `{Serializer}.

Lemma Fetch_kv key g g' :
  redis g' = redis g -> Fetch key g' = Fetch key g.
Proof. intros Hr. unfold Fetch. by rewrite Hr. Qed.

Lemma Store_then_Fetch config key v v' data g :
  Marshal v = Ok data ->
  Unmarshal data = Ok v' ->
  reachable (redis g) = true ->
  Store config key v g
  = (None, setRedis {| reachable := true;
                       kv := <[key := (data, TTL config)]> (kv (redis g)) |} g)
  /\ Fetch key (Store config key v g).2 = Ok (Some v').
Proof.
  intros Hm Hu Hr. rewrite (CacheFacts.Store_ok _ _ _ _ _ Hm Hr).
  split; [done|]. unfold Fetch, redisGet.
  cbn [snd redis setRedis reachable kv].
  rewrite lookup_insert_eq. cbn [fmap option_fmap option_map fst].
  by rewrite Hu.
Qed.

(** What was stored is what is fetched: after a [Store] that Redis
    accepted, [Fetch] of the same key returns the entry that the stored
    bytes decode to. *)
Theorem Store_Fetch config key v v' data g :
  Marshal v = Ok data ->
  Unmarshal data = Ok v' ->
  reachable (redis g) = true ->
  (Store config key v g).1 = None
  /\ Fetch key (Store config key v g).2 = Ok (Some v').
Proof.
  intros Hm Hu Hr.
  destruct (Store_then_Fetch config key v v' data g Hm Hu Hr) as [Hs Hf].
  split; [by rewrite Hs | exact Hf].
Qed.

Lemma Fetch_ext key g g' :
  reachable (redis g') = reachable (redis g) ->
  kv (redis g') !! key = kv (redis g) !! key ->
  Fetch key g' = Fetch key g.
Proof. intros Hr Hk. unfold Fetch, redisGet. by rewrite Hr, Hk. Qed.

Lemma Store_frame config key key' v g :
  key <> key' ->
  reachable (redis (Store config key v g).2) = reachable (redis g)
  /\ kv (redis (Store config key v g).2) !! key' = kv (redis g) !! key'.
Proof.
  intros Hne. unfold Store, redisSet.
  destruct (Marshal v) as [data|err]; [|done].
  destruct (reachable (redis g)) eqn:Hr; [|done].
  cbn. by rewrite lookup_insert_ne.
Qed.

(** [Store] under one key never changes what another key fetches, whether
    it succeeds or not. *)
Theorem Store_other_key config key key' v g :
  key <> key' -> Fetch key' (Store config key v g).2 = Fetch key' g.
Proof.
  intros Hne. destruct (Store_frame config key key' v g Hne) as [Hr Hk].
  by apply Fetch_ext.
Qed.

(** After [Invalidate] on a reachable Redis the key is absent, and every
    other key fetches what it did. *)
Theorem Invalidate_Fetch key g :
  reachable (redis g) = true ->
  (Invalidate key g).1 = None
  /\ Fetch key (Invalidate key g).2 = Ok None
  /\ (forall key', key <> key' ->
        Fetch key' (Invalidate key g).2 = Fetch key' g).
Proof.
  intros Hr. unfold Invalidate, redisDel. rewrite Hr. cbn.
  split; [done|]. unfold Fetch, redisGet. cbn. split.
  - by rewrite lookup_delete_eq.
  - intros key' Hne. by rewrite Hr, lookup_delete_ne.
Qed.

(** With Redis out of reach every operation reports an error and leaves
    the state as it was; [Fetch] never invents an entry. *)
Theorem unreachable_errors config key v g :
  reachable (redis g) = false ->
  (exists err, Store config key v g = (Some err, g))
  /\ Fetch key g = Err connErr
  /\ Invalidate key g = (Some connErr, g).
Proof.
  intros Hr. split; [|split].
  - unfold Store, redisSet. destruct (Marshal v) as [data|err]; [|by eexists].
    rewrite Hr. exists connErr. by destruct g.
  - unfold Fetch, redisGet. by rewrite Hr.
  - unfold Invalidate, redisDel. rewrite Hr. by destruct g.
Qed.

End WithSerializer.

Lemma Store_Fetch_witness :
  (@Store SexpSerializer config "k" listing cold).1 = None
  /\ @Fetch SexpSerializer "k" (@Store SexpSerializer config "k" listing cold).2
     = Ok (Some listing).
Proof.
  apply (@Store_Fetch SexpSerializer config "k" listing listing
           (to_string (toWire listing)) cold).
  - reflexivity.
  - vm_compute. reflexivity.
  - reflexivity.
Defined.

Lemma Store_other_key_witness :
  @Fetch SexpSerializer "k2" (@Store SexpSerializer config "k" listing cold).2
  = @Fetch SexpSerializer "k2" cold.
Proof.
  apply (@Store_other_key SexpSerializer config "k" "k2" listing cold).
  discriminate.
Defined.

Lemma Invalidate_Fetch_witness :
  (@Invalidate (GetKey config getContacts) warm).1 = None
  /\ @Fetch SexpSerializer (GetKey config getContacts)
       (Invalidate (GetKey config getContacts) warm).2 = Ok None.
Proof.
  destruct (@Invalidate_Fetch SexpSerializer (GetKey config getContacts) warm)
    as (H1 & H2 & _).
  - reflexivity.
  - exact (conj H1 H2).
Defined.

Lemma unreachable_errors_witness :
  @Fetch SexpSerializer "k" offline = Err connErr
  /\ Invalidate "k" offline = (Some connErr, offline).
Proof.
  destruct (@unreachable_errors SexpSerializer config "k" listing offline)
    as (_ & H2 & H3).
  - reflexivity.
  - exact (conj H2 H3).
Defined.

End StoreFacts.

(** ** Response capture *)
Module WriterFacts.
Import Middleware Cache Spec Samples Script.

Lemma capture_applyOps {W} `{ResponseWriter W} ops :
  forall cw : CacheResponseWriter W,
    inner (applyOps ops cw) = applyOps ops (inner cw)
    /\ cbody (applyOps ops cw) = cbody cw ++ written ops
    /\ status (applyOps ops cw) = lastStatus (status cw) ops.
Proof.
  induction ops as [|op ops IH]; intros cw.
  - cbn. by rewrite StoreFacts.append_nil_r.
  - unfold applyOps in *. cbn [fold_left].
    destruct (IH (applyOp cw op)) as (Hi & Hb & Hs).
    rewrite Hi, Hb, Hs. destruct op; cbn; [done | done |].
    by rewrite StoreFacts.append_assoc.
Qed.

(** After a panic no call reaches the connection. *)
Lemma conn_panicked ops : forall c : Conn,
  panicked c = true -> applyOps ops c = c.
Proof.
  induction ops as [|op ops IH]; intros c Hp; [done|].
  change (applyOps (op :: ops) c) with (applyOps ops (applyOp c op)).
  assert (applyOp c op = c) as ->; [|by apply IH].
  destruct op; cbn [applyOp SetHeaderMap WriteHeader Write Conn_writer].
  - by rewrite Hp.
  - by apply ConnFacts.connWriteHeader_panicked.
  - by apply ConnFacts.connWrite_panicked.
Qed.

(** Once written, the header stays as it is. *)
Lemma conn_sent_stable ops : forall (c : Conn) x,
  sent c = Some x ->
  sent (applyOps ops c) = Some x
  /\ contentLength (applyOps ops c) = contentLength c.
Proof.
  induction ops as [|op ops IH]; intros c x Hs; [done|].
  change (applyOps (op :: ops) c) with (applyOps ops (applyOp c op)).
  assert (sent (applyOp c op) = Some x
          /\ contentLength (applyOp c op) = contentLength c) as [Hs' Hc'].
  { destruct op; cbn [applyOp SetHeaderMap WriteHeader Write Conn_writer].
    - by destruct (panicked c).
    - by rewrite (ConnFacts.connWriteHeader_sent _ _ _ Hs).
    - unfold connWrite. destruct (panicked c); [done|].
      rewrite (ConnFacts.connWriteHeader_sent _ _ _ Hs), Hs. destruct x as [code h].
      destruct (Z.of_nat (String.length b) =? 0); [done|].
      by destruct (negb (bodyAllowedForStatus code)). }
  destruct (IH _ x Hs') as [-> ->]. by rewrite Hc'.
Qed.

(** The bytes the server accepts: all that the handler writes, when the
    response goes out with a status that admits a body and without a
    declared length. *)
Lemma conn_accepted ops code h : forall c : Conn,
  panicked c = false ->
  sent (applyOps ops c) = Some (code, h) ->
  bodyAllowedForStatus code = true ->
  contentLength (applyOps ops c) = None ->
  body (applyOps ops c) = body c ++ written ops.
Proof.
  induction ops as [|op ops IH]; intros c Hp Hs Hallowed Hcl.
  - cbn. by rewrite StoreFacts.append_nil_r.
  - change (applyOps (op :: ops) c) with (applyOps ops (applyOp c op)) in *.
    destruct op as [k v|code0|b];
      cbn [applyOp SetHeaderMap WriteHeader Write Conn_writer written] in *.
    + rewrite Hp in *.
      exact (IH (withHeaders (Set_ (Header c) k v) c) eq_refl Hs Hallowed Hcl).
    + destruct (ConnFacts.connWriteHeader_cases code0 c Hp) as [[Hp' Hs']|[Hp' Hb]].
      * rewrite (conn_panicked ops _ Hp') in Hs. congruence.
      * by rewrite (IH _ Hp' Hs Hallowed Hcl), Hb.
    + destruct (ConnFacts.connWrite_cases b c Hp) as (code' & h' & Hs' & Hp' & Hb).
      destruct (conn_sent_stable ops _ _ Hs') as [Hfinal Hlen].
      rewrite Hfinal in Hs. injection Hs as -> ->. rewrite Hlen in Hcl.
      rewrite (IH _ Hp') by (by rewrite ?Hfinal, ?Hlen).
      by rewrite (Hb Hallowed Hcl), StoreFacts.append_assoc.
Qed.

(** A handler that writes without calling [WriteHeader] sends 200. *)
Lemma conn_implicit ops : forall c : Conn,
  callsWriteHeader ops = false -> callsWrite ops = true ->
  sent c = None -> panicked c = false ->
  fst <$> sent (applyOps ops c) = Some StatusOK.
Proof.
  induction ops as [|op ops IH]; intros c Hh Hw Hs Hp; [done|].
  change (applyOps (op :: ops) c) with (applyOps ops (applyOp c op)).
  destruct op as [k v|code|b]; cbn in Hh, Hw; [|done|].
  - apply IH; try done;
      cbn [applyOp SetHeaderMap Conn_writer]; by rewrite Hp.
  - assert (Hfirst : sent (applyOp c (OpWrite b)) = Some (StatusOK, hdr c)).
    { cbn [applyOp Write Conn_writer]. unfold connWrite, connWriteHeader.
      rewrite Hp, Hs. cbn.
      destruct (Z.of_nat (String.length b) =? 0); done. }
    by destruct (conn_sent_stable ops _ _ Hfirst) as [-> _].
Qed.

Lemma lastStatus_none ops : forall s,
  callsWriteHeader ops = false -> lastStatus s ops = s.
Proof.
  induction ops as [|op ops IH]; intros s Hh; [done|].
  destruct op; cbn in Hh |- *; [by apply IH | done | by apply IH].
Qed.

(** The capturing writer is a mirror: the embedded writer receives every
    call unchanged, the captured body is all the bytes written, in order,
    and the captured status is the code of the last [WriteHeader] call (0
    when there was none). *)
Theorem capture_mirrors {W} `{ResponseWriter W} (ops : list WOp) (w : W) :
  let cw := applyOps ops (NewCacheResponseWriter w) in
  inner cw = applyOps ops w
  /\ cbody cw = written ops
  /\ status cw = lastStatus 0 ops.
Proof. exact (capture_applyOps ops (NewCacheResponseWriter w)). Qed.

(** On a new connection the captured body is byte for byte the body of
    the response, when the response goes out with a status that admits a
    body and the handler declares no length.  (After a status such as 204
    the server refuses the bytes that the capturing writer has already
    buffered.) *)
Theorem captured_body_delivered (ops : list WOp) code h :
  sent (applyOps ops newConn) = Some (code, h) ->
  bodyAllowedForStatus code = true ->
  contentLength (applyOps ops newConn) = None ->
  let cw := applyOps ops (NewCacheResponseWriter newConn) in
  cbody cw = body (inner cw).
Proof.
  intros Hs Hallowed Hcl. cbn zeta.
  destruct (capture_applyOps ops (NewCacheResponseWriter newConn))
    as (Hi & Hb & _).
  rewrite Hi, Hb. cbn [NewCacheResponseWriter inner cbody].
  by rewrite (conn_accepted ops code h newConn eq_refl Hs Hallowed Hcl).
Qed.

Lemma captured_body_delivered_witness :
  cbody (applyOps (MoreSamples.listContacts getContacts cold).1
           (NewCacheResponseWriter newConn))
  = body (inner (applyOps (MoreSamples.listContacts getContacts cold).1
                   (NewCacheResponseWriter newConn))).
Proof.
  apply (captured_body_delivered (MoreSamples.listContacts getContacts cold).1
           StatusOK {["Content-Type" := ["application/json"]]});
    reflexivity.
Defined.

End WriterFacts.

(** ** The cache as seen by the client *)
Module FlowFacts.
Import Middleware Cache Spec Samples Script Orderly.

Lemma applyOps_app {W} `{ResponseWriter W} (ops1 ops2 : list WOp) (w : W) :
  applyOps (ops1 ++ ops2) w = applyOps ops2 (applyOps ops1 w).
Proof. unfold applyOps. apply fold_left_app. Qed.

Lemma conn_set_headers hs : forall h (c : Conn),
  applyOps (map (fun kv => OpSetHeader kv.1 kv.2) hs) (withHeaders h c)
  = withHeaders (setAll hs h) c.
Proof.
  induction hs as [|kv hs IH]; intros h c; [done|].
  change (applyOps (map (fun kv => OpSetHeader kv.1 kv.2) (kv :: hs))
            (withHeaders h c))
    with (applyOps (map (fun kv => OpSetHeader kv.1 kv.2) hs)
            (withHeaders (Set_ h kv.1 kv.2) c)).
  by rewrite IH.
Qed.

Lemma conn_writes bs : forall (c : Conn) code h,
  panicked c = false -> sent c = Some (code, h) ->
  bodyAllowedForStatus code = true -> contentLength c = None ->
  hdr (applyOps (map OpWrite bs) c) = hdr c
  /\ sent (applyOps (map OpWrite bs) c) = Some (code, h)
  /\ body (applyOps (map OpWrite bs) c) = body c ++ joined bs
  /\ panicked (applyOps (map OpWrite bs) c) = false.
Proof.
  induction bs as [|b bs IH]; intros c code h Hp Hs Hallowed Hcl.
  - cbn. by rewrite StoreFacts.append_nil_r.
  - change (applyOps (map OpWrite (b :: bs)) c)
      with (applyOps (map OpWrite bs) (connWrite b c)).
    destruct (ConnFacts.connWrite_accepted b c code h Hp Hs Hallowed Hcl)
      as (Hh & _ & Hs' & Hcl' & Hb & Hp').
    destruct (IH _ code h Hp' Hs' Hallowed Hcl') as (-> & -> & -> & ->).
    rewrite Hh, Hb. cbn [joined]. by rewrite StoreFacts.append_assoc.
Qed.

(** The status sent by a handler that sets its headers and then calls
    [WriteHeader] with a final code that the server accepts. *)
Lemma conn_orderly_status hs code bs :
  checkWriteHeaderCode code = true -> informational code = false ->
  sent (applyOps (orderly hs code bs) newConn) = Some (code, setAll hs ∅).
Proof.
  intros Hcode Hfinal. unfold orderly. rewrite applyOps_app.
  change newConn with (withHeaders ∅ newConn) at 1. rewrite conn_set_headers.
  change (applyOps (OpWriteHeader code :: map OpWrite bs) ?c)
    with (applyOps (map OpWrite bs) (connWriteHeader code c)).
  destruct (ConnFacts.connWriteHeader_status code
              (withHeaders (setAll hs ∅) newConn) eq_refl eq_refl Hcode Hfinal)
    as [Hs _].
  by destruct (WriterFacts.conn_sent_stable (map OpWrite bs) _ _ Hs) as [-> _].
Qed.

(** The whole response of such a handler, when the status admits a body
    and the handler declares no length. *)
Lemma conn_orderly hs code bs :
  checkWriteHeaderCode code = true ->
  bodyAllowedForStatus code = true ->
  Get (setAll hs ∅) "Content-Length" = "" ->
  let c := applyOps (orderly hs code bs) newConn in
  hdr c = setAll hs ∅
  /\ delivered c = (Some (code, setAll hs ∅), joined bs)
  /\ panicked c = false.
Proof.
  intros Hcode Hallowed Hcl. cbn zeta. unfold orderly, delivered.
  rewrite applyOps_app.
  change newConn with (withHeaders ∅ newConn) at 1 2 3 4. rewrite conn_set_headers.
  change (applyOps (OpWriteHeader code :: map OpWrite bs) ?c)
    with (applyOps (map OpWrite bs) (connWriteHeader code c)).
  rewrite ConnFacts.connWriteHeader_final; try done;
    [|by apply ConnFacts.body_allowed_final].
  by destruct (conn_writes bs
                 (headerSent code (withHeaders (setAll hs ∅) newConn))
                 code (setAll hs ∅) eq_refl eq_refl Hallowed eq_refl)
    as (-> & -> & -> & ->).
Qed.

Lemma orderly_written hs code bs : written (orderly hs code bs) = joined bs.
Proof.
  unfold orderly. induction hs as [|kv hs IH]; [|exact IH].
  cbn [map app written]. induction bs as [|b bs IHb]; [done|].
  cbn [map written joined]. by rewrite IHb.
Qed.

Lemma orderly_status hs code bs s : lastStatus s (orderly hs code bs) = code.
Proof.
  unfold orderly. revert s. induction hs as [|kv hs IH]; intros s; [|apply IH].
  cbn [map app lastStatus]. induction bs as [|b bs IHb]; [done|]. exact IHb.
Qed.

Lemma orderly_captured hs code bs :
  checkWriteHeaderCode code = true ->
  bodyAllowedForStatus code = true ->
  Get (setAll hs ∅) "Content-Length" = "" ->
  let cw := applyOps (orderly hs code bs) (NewCacheResponseWriter newConn) in
  captured cw = {| Status := code; Headers := setAll hs ∅; Body := joined bs |}
  /\ delivered (inner cw) = (Some (code, setAll hs ∅), joined bs)
  /\ panicked (inner cw) = false.
Proof.
  intros Hcode Hallowed Hcl. cbn zeta.
  destruct (WriterFacts.capture_applyOps (orderly hs code bs)
              (NewCacheResponseWriter newConn)) as (Hi & Hb & Hs).
  destruct (conn_orderly hs code bs Hcode Hallowed Hcl) as (Hh & Hd & Hp).
  unfold captured. rewrite Hi, Hb, Hs.
  cbn [NewCacheResponseWriter inner cbody status Header Conn_writer].
  by rewrite Hh, Hd, Hp, orderly_written, orderly_status.
Qed.



Section WithSerializer.
Context `{Serializer}.

Lemma scripted_capture f W (i : ResponseWriter W) r (w : W) g :
  scripted f (CacheResponseWriter W) _ r (NewCacheResponseWriter w) g
  = (applyOps (f r g).1 (NewCacheResponseWriter w), (f r g).2).
Proof. unfold scripted. by destruct (f r g). Qed.

Lemma scripted_plain f W (i : ResponseWriter W) r (w : W) g :
  scripted f W i r w g = (applyOps (f r g).1 w, (f r g).2).
Proof. unfold scripted. by destruct (f r g). Qed.

Lemma CacheAside_transparent config f W (i : ResponseWriter W) r (w : W) g :
  (ShouldCache config r = true ->
   forall response, Fetch (GetKey config r) g <> Ok (Some response)) ->
  (CacheAside config (scripted f) W i r w g).1 = (scripted f W i r w g).1.
Proof.
  intros Hmiss. destruct (ShouldCache config r) eqn:Hc.
  - rewrite (CacheFacts.CacheAside_miss _ _ _ _ _ _ _ Hc (Hmiss eq_refl)).
    cbn [fst]. rewrite scripted_capture, scripted_plain. cbn [fst].
    by destruct (WriterFacts.capture_applyOps (f r g).1 (NewCacheResponseWriter w))
      as (-> & _).
  - unfold CacheAside. by rewrite Hc.
Qed.

(** The cache is transparent whenever it does not answer itself: unless the
    request is cacheable and its key is found, the caller receives exactly
    what the origin handler alone would have written, under either
    strategy. *)
Theorem WithCache_transparent config f W (i : ResponseWriter W) r (w : W) g :
  (ShouldCache (NewRedisCache config) r = true ->
   forall response,
     Fetch (GetKey (NewRedisCache config) r) g <> Ok (Some response)) ->
  (WithCache config (scripted f) W i r w g).1 = (scripted f W i r w g).1.
Proof.
  intros Hmiss. unfold WithCache.
  destruct (Strategy config); [|by apply CacheAside_transparent].
  unfold WriteThrough. destruct (Method r =? "GET")%string; cbn [negb];
    [by apply CacheAside_transparent|].
  rewrite scripted_capture, scripted_plain. cbn [fst].
  destruct (WriterFacts.capture_applyOps (f r g).1 (NewCacheResponseWriter w))
    as (Hi & _).
  by destruct (status _ =? StatusOK); cbn [fst].
Qed.

(** For a handler that sets its headers, calls [WriteHeader] once, with a
    code that the server accepts with a body, and then writes its body,
    declaring no length: when its response to a cacheable request is
    stored, every later hit on the state left behind delivers the very
    response of the first request, whatever the origin handler has become,
    and leaves the state as it is. *)
Theorem hit_replays_first_response config r f hs code bs g g1 data :
  ShouldCache config r = true ->
  (forall response, Fetch (GetKey config r) g <> Ok (Some response)) ->
  f r g = (orderly hs code bs, g1) ->
  checkWriteHeaderCode code = true ->
  bodyAllowedForStatus code = true ->
  Get (setAll hs ∅) "Content-Length" = "" ->
  Marshal {| Status := code; Headers := setAll hs ∅; Body := joined bs |} = Ok data ->
  Unmarshal data = Ok {| Status := code; Headers := setAll hs ∅; Body := joined bs |} ->
  reachable (redis g1) = true ->
  let first := CacheAside config (scripted f) Conn _ r newConn g in
  delivered first.1 = (Some (code, setAll hs ∅), joined bs)
  /\ forall next : HandlerFunc World,
       let again := CacheAside config next Conn _ r newConn first.2 in
       delivered again.1 = delivered first.1 /\ again.2 = first.2.
Proof.
  intros Hc Hmiss Hf Hcode Hallowed Hcl Hm Hu Hr first.
  set (entry := {| Status := code; Headers := setAll hs ∅; Body := joined bs |}) in *.
  destruct (StoreFacts.Store_then_Fetch config (GetKey config r) _ _ data g1
              Hm Hu Hr) as [Hs Hfetch].
  assert (Hfirst : delivered first.1 = (Some (code, setAll hs ∅), joined bs)
                   /\ first.2 = (Store config (GetKey config r) entry g1).2).
  { subst first. rewrite (CacheFacts.CacheAside_miss _ _ _ _ _ _ _ Hc Hmiss).
    rewrite scripted_capture, Hf. cbn [fst snd].
    destruct (orderly_captured hs code bs Hcode Hallowed Hcl) as (Hcap & Hd & _).
    cbn zeta in Hcap, Hd. rewrite Hcap, Hd. fold entry. by rewrite Hs. }
  destruct Hfirst as [Hd Hstate]. split; [done|]. intros next again. subst again.
  rewrite Hstate, Hd.
  rewrite (CacheFacts.CacheAside_hit config next Conn _ r newConn _ entry Hc Hfetch).
  cbn [fst snd]. split; [|done].
  by destruct (CacheFacts.replay_accepted entry Hcode Hallowed Hcl) as [-> _].
Qed.

End WithSerializer.

Lemma WithCache_transparent_witness :
  (@WithCache SexpSerializer sampleConfig (scripted MoreSamples.listContacts)
     Conn _ getContacts newConn cold).1
  = (scripted MoreSamples.listContacts Conn _ getContacts newConn cold).1.
Proof.
  apply (@WithCache_transparent SexpSerializer sampleConfig
           MoreSamples.listContacts Conn _ getContacts newConn cold).
  intros _ response. vm_compute. discriminate.
Defined.

Lemma hit_replays_first_response_witness :
  let first := @CacheAside SexpSerializer config (scripted MoreSamples.listContacts)
                 Conn _ getContacts newConn cold in
  let again := @CacheAside SexpSerializer config failing Conn _ getContacts
                 newConn first.2 in
  delivered again.1 = delivered first.1 /\ again.2 = first.2.
Proof.
  refine (proj2 (@hit_replays_first_response SexpSerializer config getContacts
            MoreSamples.listContacts [("Content-Type", "application/json")]
            StatusOK ["[3"; "]"] cold (Printf "origin called" cold)
            (to_string (toWire MoreSamples.listingEntry)) _ _ _ _ _ _ _ _ _)
            failing).
  - vm_compute. reflexivity.
  - intros response. vm_compute. discriminate.
  - reflexivity.
  - reflexivity.
  - reflexivity.
  - reflexivity.
  - vm_compute. reflexivity.
  - vm_compute. reflexivity.
  - reflexivity.
Defined.

End FlowFacts.

(** ** Entries that cannot be replayed *)
Module ReplayFacts.
Import Middleware Cache Spec Samples Script MoreSamples.

Section WithSerializer.
Context `{Serializer}.

(** C10, as amended: on a miss, an origin handler that writes a body and
    never calls [WriteHeader] reaches the caller with status 200, but the
    entry stored for the key has status 0; a later hit on that entry calls
    [WriteHeader(0)], which the writer of the server refuses with a panic:
    the caller of the hit receives neither status nor body, and the state
    is as it was. *)
Theorem status_zero_captured config f r g :
  ShouldCache config r = true ->
  (forall response, Fetch (GetKey config r) g <> Ok (Some response)) ->
  callsWriteHeader (f r g).1 = false ->
  callsWrite (f r g).1 = true ->
  let first := CacheAside config (scripted f) Conn _ r newConn g in
  let entry := {| Status := 0; Headers := hdr first.1;
                  Body := written (f r g).1 |} in
  fst <$> sent first.1 = Some StatusOK
  /\ first.2 = logStoreError (Store config (GetKey config r) entry (f r g).2)
  /\ (forall data,
        Marshal entry = Ok data ->
        reachable (redis (f r g).2) = true ->
        kv (redis first.2) !! GetKey config r = Some (data, TTL config))
  /\ (forall (next : HandlerFunc World) g2 W (i : ResponseWriter W) (w : W),
        Fetch (GetKey config r) g2 = Ok (Some entry) ->
        CacheAside config next W i r w g2
        = (Write (Body entry)
             (WriteHeader 0 (SetHeaderMap (Headers entry ∪ Header w) w)), g2))
  /\ (forall (next : HandlerFunc World) g2,
        Fetch (GetKey config r) g2 = Ok (Some entry) ->
        let hit := CacheAside config next Conn _ r newConn g2 in
        delivered hit.1 = (None, "") /\ panicked hit.1 = true /\ hit.2 = g2).
Proof.
  intros Hc Hmiss Hh Hw first entry.
  destruct (WriterFacts.capture_applyOps (f r g).1 (NewCacheResponseWriter newConn))
    as (Hi & Hb & Hs).
  cbn [NewCacheResponseWriter inner cbody status] in Hi, Hb, Hs.
  rewrite (WriterFacts.lastStatus_none _ _ Hh) in Hs.
  assert (Hfirst : first = (applyOps (f r g).1 newConn,
                            logStoreError
                              (Store config (GetKey config r) entry (f r g).2))).
  { subst entry first.
    rewrite (CacheFacts.CacheAside_miss _ _ _ _ _ _ _ Hc Hmiss).
    rewrite FlowFacts.scripted_capture. cbn [fst snd]. unfold captured.
    by rewrite Hi, Hb, Hs. }
  split; [|split; [|split; [|split]]].
  - rewrite Hfirst. cbn [fst]. by apply WriterFacts.conn_implicit.
  - by rewrite Hfirst.
  - intros data Hm Hr. rewrite Hfirst. cbn [snd].
    rewrite (CacheFacts.Store_ok _ _ _ _ _ Hm Hr).
    unfold logStoreError. cbn. apply lookup_insert_eq.
  - intros next g2 W i w Hf.
    by rewrite (CacheFacts.CacheAside_hit _ _ _ _ _ _ _ _ Hc Hf).
  - intros next g2 Hf.
    by apply (CacheFacts.CacheAside_hit_refused config next r g2 entry).
Qed.

End WithSerializer.

Lemma status_zero_captured_witness :
  let first := @CacheAside SexpSerializer config (scripted showContact) Conn _
                 getContact7 newConn cold in
  fst <$> sent first.1 = Some StatusOK
  /\ kv (redis first.2) !! GetKey config getContact7
     = Some (to_string (toWire {| Status := 0; Headers := ∅;
                                  Body := contactJson |}), TTL config).
Proof.
  assert (Hc : ShouldCache config getContact7 = true) by (vm_compute; reflexivity).
  assert (Hmiss : forall response,
            @Fetch SexpSerializer (GetKey config getContact7) cold
            <> Ok (Some response)) by (intros response; vm_compute; discriminate).
  destruct (@status_zero_captured SexpSerializer config showContact getContact7
              cold Hc Hmiss) as (Hfirst & _ & Hstored & _).
  - reflexivity.
  - reflexivity.
  - cbn zeta. split; [exact Hfirst|].
    apply Hstored; vm_compute; reflexivity.
Defined.

(** C10, as stated, fails: the same origin behind Cache-Aside, asked
    twice.  The first caller receives 200 and the entry stored has status
    0; the hit that follows does not replay status 0, it sends nothing at
    all, the writer having panicked. *)
Lemma status_zero_hit_refused :
  let served := serve (@CacheAside SexpSerializer config (writeOnly "hello"))
                  [getContacts; getContacts] cold in
  map delivered served.1 = [(Some (StatusOK, ∅), "hello"); (None, "")]
  /\ map panicked served.1 = [false; true]
  /\ @Fetch SexpSerializer (GetKey config getContacts) served.2
     = Ok (Some {| Status := 0; Headers := ∅; Body := "hello" |}).
Proof. cbv zeta. repeat split; by_vm. Qed.

(** C5 on the code: the handler of the contact controller behind
    Cache-Aside, asked twice for the same contact.  The first request is a
    miss: the caller receives 200 and the contact, and the entry stored
    has status 0.  The second is a hit: nothing of the stored entry is
    replayed, the writer panics on the stored status and the caller
    receives no response; the origin handler has run once. *)
Theorem cache_aside_hit_not_replayed :
  let first := @CacheAside SexpSerializer config (scripted showContact) Conn _
                 getContact7 newConn cold in
  let second := @CacheAside SexpSerializer config (scripted showContact) Conn _
                  getContact7 newConn first.2 in
  ShouldCache config getContact7 = true
  /\ delivered first.1 = (Some (StatusOK, ∅), contactJson)
  /\ @Fetch SexpSerializer (GetKey config getContact7) first.2
     = Ok (Some {| Status := 0; Headers := ∅; Body := contactJson |})
  /\ delivered second.1 = (None, "")
  /\ panicked second.1 = true
  /\ stdout second.2 = ["origin called"].
Proof. cbv zeta. repeat split; by_vm. Qed.

End ReplayFacts.

(** ** More on the chain, the breaker and the rate limiter *)
Module PipelineFacts.
Import Middleware Spec Samples.

(** Chains compose: chaining two lists of middlewares one after the other
    is chaining their concatenation. *)
Theorem Chain_app {St} (ms1 ms2 : list (Middleware St)) (final : HandlerFunc St) :
  Chain (ms1 ++ ms2) final = Chain ms1 (Chain ms2 final).
Proof.
  induction ms1 as [|m ms1 IH]; [done|].
  cbn [app]. by rewrite !ChainFacts.Chain_cons, IH.
Qed.

Lemma open_rejects next W (i : ResponseWriter W) r (w : W) g :
  failureThreshold (breaker g) <= failures (breaker g) ->
  Time.Since (clock g) (lastFailure (breaker g)) <= resetTimeout (breaker g) ->
  WithCircuitBreaker next W i r w g
  = (respondWithError w StatusServiceUnavailable "Service temporarily unavailable", g).
Proof.
  intros Hth Hin. unfold WithCircuitBreaker, isOpen.
  destruct (Z.leb_spec (failureThreshold (breaker g)) (failures (breaker g)));
    [|lia].
  destruct (Z.ltb_spec (resetTimeout (breaker g))
              (Time.Since (clock g) (lastFailure (breaker g)))); [lia|].
  by rewrite BreakerFacts.setBreaker_same.
Qed.

(** While the breaker is open and the timeout has not passed, every request
    is answered 503 by the middleware itself: the next handler is never
    called and the state does not change. *)
Theorem open_breaker_rejects_all next rs g :
  failureThreshold (breaker g) <= failures (breaker g) ->
  Time.Since (clock g) (lastFailure (breaker g)) <= resetTimeout (breaker g) ->
  serve (WithCircuitBreaker next) rs g
  = (replicate (List.length rs) MoreSamples.unavailable, g).
Proof.
  intros Hth Hin. induction rs as [|r rs IH]; [done|].
  cbn [serve List.length replicate].
  by rewrite (open_rejects next Conn _ r newConn g Hth Hin), IH.
Qed.

Lemma open_breaker_rejects_all_witness :
  serve (WithCircuitBreaker failing) (replicate 3 getContacts) trippedWorld
  = (replicate 3 MoreSamples.unavailable, trippedWorld).
Proof.
  apply (open_breaker_rejects_all failing (replicate 3 getContacts) trippedWorld).
  - vm_compute. discriminate.
  - vm_compute. discriminate.
Defined.

Lemma closed_forwards next W (i : ResponseWriter W) r (w : W) g :
  failures (breaker g) = 0 ->
  0 < failureThreshold (breaker g)
  \/ resetTimeout (breaker g) < Time.Since (clock g) (lastFailure (breaker g)) ->
  WithCircuitBreaker next W i r w g
  = next W i (WithContext "check-circuit" r) w g.
Proof.
  intros Hf Hok. unfold WithCircuitBreaker, isOpen.
  destruct (Z.leb_spec (failureThreshold (breaker g)) (failures (breaker g)))
    as [Hle|Hlt]; [|by rewrite BreakerFacts.setBreaker_same].
  destruct Hok as [Hpos|Hexp]; [lia|].
  destruct (Z.ltb_spec (resetTimeout (breaker g))
              (Time.Since (clock g) (lastFailure (breaker g)))); [|lia].
  replace {| failureThreshold := failureThreshold (breaker g);
             resetTimeout := resetTimeout (breaker g);
             failures := 0; lastFailure := lastFailure (breaker g) |}
    with (breaker g) by (destruct (breaker g); cbn in *; by subst).
  by rewrite BreakerFacts.setBreaker_same.
Qed.

Lemma serve_closed next rs : forall g,
  (forall W (i : ResponseWriter W) r (w : W) g,
      breaker (next W i r w g).2 = breaker g
      /\ clock (next W i r w g).2 = clock g) ->
  failures (breaker g) = 0 ->
  0 < failureThreshold (breaker g)
  \/ resetTimeout (breaker g) < Time.Since (clock g) (lastFailure (breaker g)) ->
  serve (WithCircuitBreaker next) rs g
  = serve next (map (WithContext "check-circuit") rs) g.
Proof.
  intros g Hframe. revert g. induction rs as [|r rs IH]; intros g Hf Hok; [done|].
  cbn [serve map]. rewrite (closed_forwards next Conn _ r newConn g Hf Hok).
  destruct (Hframe Conn _ (WithContext "check-circuit" r) newConn g) as [Hb Hc].
  destruct (next Conn _ (WithContext "check-circuit" r) newConn g) as [c g1].
  cbn [snd] in Hb, Hc. rewrite IH; [done | by rewrite Hb | by rewrite Hb, Hc].
Qed.

(** The breaker heals by itself: once the timeout has passed, the first
    request clears the failure counter and is handed on, and so is every
    request after it, as long as the next handler leaves the breaker and
    the clock alone. *)
Theorem breaker_heals next r rs g :
  (forall W (i : ResponseWriter W) r (w : W) g,
      breaker (next W i r w g).2 = breaker g
      /\ clock (next W i r w g).2 = clock g) ->
  failureThreshold (breaker g) <= failures (breaker g) ->
  resetTimeout (breaker g) < Time.Since (clock g) (lastFailure (breaker g)) ->
  serve (WithCircuitBreaker next) (r :: rs) g
  = serve next (map (WithContext "check-circuit") (r :: rs))
      (setBreaker (MoreSamples.cleared (breaker g)) g).
Proof.
  intros Hframe Hth Hexp.
  assert (Hfirst : forall W (i : ResponseWriter W) (w : W),
            WithCircuitBreaker next W i r w g
            = next W i (WithContext "check-circuit" r) w
                (setBreaker (MoreSamples.cleared (breaker g)) g)).
  { intros W i w. unfold WithCircuitBreaker, isOpen.
    destruct (Z.leb_spec (failureThreshold (breaker g)) (failures (breaker g)));
      [|lia].
    by destruct (Z.ltb_spec (resetTimeout (breaker g))
                   (Time.Since (clock g) (lastFailure (breaker g)))); [|lia]. }
  cbn [serve map]. rewrite Hfirst.
  destruct (Hframe Conn _ (WithContext "check-circuit" r) newConn
              (setBreaker (MoreSamples.cleared (breaker g)) g)) as [Hb Hc].
  destruct (next Conn _ (WithContext "check-circuit" r) newConn
              (setBreaker (MoreSamples.cleared (breaker g)) g)) as [c g1].
  cbn [snd] in Hb, Hc.
  rewrite (serve_closed next rs g1 Hframe); [done | by rewrite Hb |].
  right. by rewrite Hb, Hc.
Qed.

Lemma breaker_heals_witness :
  serve (WithCircuitBreaker failing) [getContacts; getContacts] MoreSamples.expiredWorld
  = serve failing (map (WithContext "check-circuit") [getContacts; getContacts])
      (setBreaker (MoreSamples.cleared (breaker MoreSamples.expiredWorld))
         MoreSamples.expiredWorld).
Proof.
  apply (breaker_heals failing getContacts [getContacts] MoreSamples.expiredWorld).
  - intros. split; reflexivity.
  - vm_compute. discriminate.
  - vm_compute. reflexivity.
Defined.

(** Clients do not share buckets: a request never changes the limiter of a
    key other than its own, provided the next handler leaves the registry
    alone. *)
Theorem other_clients_untouched next W (i : ResponseWriter W) r (w : W) g key :
  (forall W (i : ResponseWriter W) r (w : W) g,
      limiters (next W i r w g).2 = limiters g) ->
  key <> RemoteAddr r ->
  limiters (WithRateLimit next W i r w g).2 !! key = limiters g !! key.
Proof.
  intros Hframe Hne. unfold WithRateLimit, getLimiter, allow.
  destruct (limiters g !! RemoteAddr r) as [l|] eqn:Hl.
  - destruct (Rate.Allow (clock g) l) as [[|] l']; cbn [negb snd].
    + rewrite Hframe. cbn. by rewrite lookup_alter_ne.
    + cbn. by rewrite lookup_alter_ne.
  - destruct (Rate.Allow _ (Rate.NewLimiter 1 10)) as [[|] l']; cbn [negb snd].
    + rewrite Hframe. cbn. by rewrite lookup_alter_ne, lookup_insert_ne.
    + cbn. by rewrite lookup_alter_ne, lookup_insert_ne.
Qed.

Lemma other_clients_untouched_witness :
  limiters (WithRateLimit failing Conn _ getContacts newConn MoreSamples.exhausted).2
    !! "10.0.0.2:6000"
  = limiters MoreSamples.exhausted !! "10.0.0.2:6000".
Proof.
  apply (other_clients_untouched failing Conn _ getContacts newConn
           MoreSamples.exhausted "10.0.0.2:6000").
  - reflexivity.
  - discriminate.
Defined.

(** Buckets refill: a client whose last request is at least a second old
    is never rejected, however empty its bucket was. *)
Theorem waiting_client_allowed next W (i : ResponseWriter W) r (w : W) g l :
  limiters g !! RemoteAddr r = Some l ->
  limit l = 1 ->
  1 <= burst l ->
  0 <= tokens l ->
  last l + Time.Second <= clock g ->
  WithRateLimit next W i r w g
  = next W i (WithContext "check-rate-limit" r) w (takeToken (RemoteAddr r) g).
Proof.
  intros Hl Hlim Hb Htok Hlast.
  assert (Hallow : (Rate.Allow (clock g) l).1 = true).
  { unfold Rate.Allow, Rate.advance.
    destruct (Z.ltb_spec (clock g) (last l)) as [Hlt|_];
      [unfold Time.Second in Hlast; lia|].
    assert (Time.Second <= Time.Sub (clock g) (last l)).
    { unfold Time.Sub.
      assert (Time.Second <= Time.maxDuration) by (vm_compute; discriminate).
      assert (Time.minDuration <= 0) by (vm_compute; discriminate). lia. }
    rewrite Hlim, Z.mul_1_r.
    assert ((0 <=? Z.min (burst l * Rate.nano)
                     (tokens l + Time.Sub (clock g) (last l)) - Rate.nano)
            && (1 <=? burst l) = true) as ->; [|done].
    apply andb_true_iff. split; apply Z.leb_le; [|done].
    unfold Rate.nano, Time.Second in *. lia. }
  destruct (Rate.Allow (clock g) l) as [ok l'] eqn:Ha. cbn in Hallow. subst ok.
  by destruct (RateFacts.WithRateLimit_allowed next W i r w g l l' Hl Ha) as [-> _].
Qed.

Lemma waiting_client_allowed_witness :
  WithRateLimit failing Conn _ getContacts newConn MoreSamples.later
  = failing Conn _ (WithContext "check-rate-limit" getContacts) newConn
      (takeToken (RemoteAddr getContacts) MoreSamples.later).
Proof.
  apply (waiting_client_allowed failing Conn _ getContacts newConn
           MoreSamples.later MoreSamples.emptyBucket).
  - vm_compute. reflexivity.
  - reflexivity.
  - vm_compute. discriminate.
  - vm_compute. discriminate.
  - vm_compute. discriminate.
Defined.

End PipelineFacts.

(** ** The shape of cache keys *)
Module KeyShapeFacts.
Import Cache Spec Samples.

Lemma round_length s kw : List.length s = 8%nat -> List.length (Sha256.round s kw) = 8%nat.
Proof.
  intros Hlen. unfold Sha256.round.
  do 9 (destruct s as [|? s]; try discriminate Hlen). reflexivity.
Qed.

Lemma rounds_length kws : forall s,
  List.length s = 8%nat -> List.length (fold_left Sha256.round kws s) = 8%nat.
Proof.
  induction kws as [|kw kws IH]; intros s Hlen; [done|].
  cbn [fold_left]. apply IH. by apply round_length.
Qed.

Lemma block_length h ws :
  List.length h = 8%nat -> List.length (Sha256.block h ws) = 8%nat.
Proof.
  intros Hlen. unfold Sha256.block.
  rewrite length_zip_with, rounds_length by done. lia.
Qed.

Lemma blocks_length fuel : forall h ws,
  List.length h = 8%nat -> List.length (Sha256.blocks fuel h ws) = 8%nat.
Proof.
  induction fuel as [|fuel IH]; intros h ws Hlen; [done|].
  cbn [Sha256.blocks]. destruct ws; [done|]. apply IH. by apply block_length.
Qed.

Lemma bigEndian_length n x : List.length (Sha256.bigEndian n x) = n.
Proof.
  revert x. induction n as [|n IH]; intros x; [done|].
  cbn [Sha256.bigEndian]. rewrite length_app, IH. cbn. lia.
Qed.

(** The digest always has 32 bytes. *)
Lemma sum_length s : List.length (Sha256.sum s) = 32%nat.
Proof.
  unfold Sha256.sum.
  set (ws := Sha256.words _ _).
  pose proof (blocks_length (List.length ws) Sha256.init ws eq_refl) as Hlen.
  destruct (Sha256.blocks (List.length ws) Sha256.init ws)
    as [|a [|b [|c [|d [|e [|f [|g [|h [|]]]]]]]]]; try discriminate Hlen.
  cbn [flat_map]. rewrite !length_app, !bigEndian_length. reflexivity.
Qed.

Lemma length_of_list_ascii l :
  String.length (string_of_list_ascii l) = List.length l.
Proof. induction l as [|c l IH]; cbn; [done | by rewrite IH]. Qed.

Lemma hexBytes_length bs : String.length (hexBytes bs) = (2 * List.length bs)%nat.
Proof.
  unfold hexBytes. rewrite length_of_list_ascii.
  induction bs as [|b bs IH]; cbn [flat_map List.length]; [done|].
  rewrite length_app, IH. cbn. lia.
Qed.

Lemma GetKey_length config r :
  (String.length (GetKey config r)
   <= Nat.max 200 (String.length (KeyPrefix config) + 70))%nat.
Proof.
  unfold GetKey. fold (rawKey config r).
  destruct (Nat.ltb_spec 200 (String.length (rawKey config r))) as [Hlong|Hshort];
    [|lia].
  rewrite !KeyFacts.length_append, hexBytes_length, sum_length. cbn. lia.
Qed.

Lemma prefix_append (s t : string) : String.prefix s (s ++ t) = true.
Proof.
  induction s as [|c s IH]; [by destruct t|].
  change (String c s ++ t) with (String c (s ++ t)). cbn [String.prefix].
  by destruct (ascii_dec c c).
Qed.

(** The shape of a key, hashed or not: it lies in the namespace of the
    configuration, starting with the key prefix and a colon, and it is
    bounded, with at most 200 bytes or else the prefix followed by 70
    bytes (the hash marker and 64 hexadecimal digits). *)
Theorem GetKey_shape config r :
  String.prefix (KeyPrefix config ++ ":") (GetKey config r) = true
  /\ (String.length (GetKey config r)
      <= Nat.max 200 (String.length (KeyPrefix config) + 70))%nat.
Proof.
  split; [|apply GetKey_length]. unfold GetKey.
  destruct (200 <? String.length _)%nat.
  - change (":hash:" ++ ?x) with (":" ++ ("hash:" ++ x)).
    rewrite <- StoreFacts.append_assoc. apply prefix_append.
  - rewrite <- StoreFacts.append_assoc. apply prefix_append.
Qed.

End KeyShapeFacts.

(** ** Cache keys lose nothing *)
Module EncodeFacts.
Import Url Cache Spec Samples Token UrlFacts.

Lemma occurs_app sep (s t : string) :
  occurs sep (s ++ t) = occurs sep s || occurs sep t.
Proof.
  induction s as [|c s IH]; [done|].
  change (occurs sep (String c (s ++ t))
          = occurs sep (String c s) || occurs sep t).
  cbn [occurs]. by rewrite IH, orb_assoc.
Qed.

(** Two strings that agree up to the first separator agree before it and
    after it. *)
Lemma split_first sep (a1 : string) : forall a2 t1 t2,
  occurs sep a1 = false -> occurs sep a2 = false ->
  (t1 = "" \/ exists u, t1 = String sep u) ->
  (t2 = "" \/ exists u, t2 = String sep u) ->
  a1 ++ t1 = a2 ++ t2 -> a1 = a2 /\ t1 = t2.
Proof.
  induction a1 as [|c1 a1 IH]; intros [|c2 a2] t1 t2 H1 H2 Ht1 Ht2 Heq.
  - done.
  - exfalso. change (t1 = String c2 (a2 ++ t2)) in Heq.
    destruct Ht1 as [->|[u ->]]; [discriminate|].
    injection Heq as <- _. cbn in H2. by rewrite Ascii.eqb_refl in H2.
  - exfalso. change (String c1 (a1 ++ t1) = t2) in Heq.
    destruct Ht2 as [->|[u ->]]; [discriminate|].
    injection Heq as -> _. cbn in H1. by rewrite Ascii.eqb_refl in H1.
  - change (String c1 (a1 ++ t1) = String c2 (a2 ++ t2)) in Heq.
    injection Heq as -> Heq.
    cbn in H1, H2. apply orb_false_iff in H1 as [_ H1].
    apply orb_false_iff in H2 as [_ H2].
    destruct (IH a2 t1 t2 H1 H2 Ht1 Ht2 Heq) as [-> ->]. done.
Qed.

(** Two strings that agree from the last separator on agree before it and
    after it. *)
Lemma split_last sep (p1 : string) : forall p2 e1 e2,
  occurs sep e1 = false -> occurs sep e2 = false ->
  p1 ++ String sep e1 = p2 ++ String sep e2 -> p1 = p2 /\ e1 = e2.
Proof.
  assert (Hin : forall p e, occurs sep (p ++ String sep e) = true).
  { intros p e. rewrite occurs_app. cbn. rewrite Ascii.eqb_refl.
    by rewrite orb_true_r. }
  induction p1 as [|c1 p1 IH]; intros [|c2 p2] e1 e2 H1 H2 Heq.
  - by injection Heq as ->.
  - exfalso. change (String sep e1 = String c2 (p2 ++ String sep e2)) in Heq.
    injection Heq as _ ->. by rewrite Hin in H1.
  - exfalso. change (String c1 (p1 ++ String sep e1) = String sep e2) in Heq.
    injection Heq as _ <-. by rewrite Hin in H2.
  - change (String c1 (p1 ++ String sep e1) = String c2 (p2 ++ String sep e2))
      in Heq.
    injection Heq as -> Heq. by destruct (IH p2 e1 e2 H1 H2 Heq) as [-> ->].
Qed.

(** *** Escaping *)

Lemma QueryEscape_cons c s :
  QueryEscape (String c s) = QueryEscape (String c "") ++ QueryEscape s.
Proof.
  cbn [QueryEscape]. destruct (shouldEscape c); [|done].
  by destruct (Ascii.eqb c " ").
Qed.

Lemma escaped_char c :
  occurs ":" (QueryEscape (String c "")) = false
  /\ occurs "&" (QueryEscape (String c "")) = false
  /\ occurs "=" (QueryEscape (String c "")) = false
  /\ forall t, unescapeHead (QueryEscape (String c "") ++ t) = Some (c, t).
Proof.
  destruct c as [[] [] [] [] [] [] [] []]; repeat split; intros;
    vm_compute; reflexivity.
Qed.

Lemma QueryEscape_clean s :
  occurs ":" (QueryEscape s) = false
  /\ occurs "&" (QueryEscape s) = false
  /\ occurs "=" (QueryEscape s) = false.
Proof.
  induction s as [|c s (IH1 & IH2 & IH3)]; [done|].
  rewrite QueryEscape_cons, !occurs_app, IH1, IH2, IH3.
  by destruct (escaped_char c) as (-> & -> & -> & _).
Qed.

Lemma QueryEscape_inj s1 : forall s2,
  QueryEscape s1 = QueryEscape s2 -> s1 = s2.
Proof.
  induction s1 as [|c1 s1 IH]; intros [|c2 s2] Heq.
  - done.
  - exfalso. rewrite (QueryEscape_cons c2) in Heq.
    apply (f_equal unescapeHead) in Heq.
    destruct (escaped_char c2) as (_ & _ & _ & Hd). rewrite Hd in Heq.
    discriminate.
  - exfalso. rewrite (QueryEscape_cons c1) in Heq.
    apply (f_equal unescapeHead) in Heq.
    destruct (escaped_char c1) as (_ & _ & _ & Hd). rewrite Hd in Heq.
    discriminate.
  - rewrite (QueryEscape_cons c1), (QueryEscape_cons c2) in Heq.
    apply (f_equal unescapeHead) in Heq.
    destruct (escaped_char c1) as (_ & _ & _ & Hd1).
    destruct (escaped_char c2) as (_ & _ & _ & Hd2).
    rewrite Hd1, Hd2 in Heq. injection Heq as -> Heq. by rewrite (IH s2).
Qed.

(** *** Pieces *)

Lemma piece_inj kv1 kv2 : piece kv1 = piece kv2 -> kv1 = kv2.
Proof.
  unfold piece. intros Heq.
  destruct (QueryEscape_clean kv1.1) as (_ & _ & Hk1).
  destruct (QueryEscape_clean kv2.1) as (_ & _ & Hk2).
  apply (split_first "=" (QueryEscape kv1.1) (QueryEscape kv2.1)) in Heq
    as [Hk Hv]; try done; try (right; by eexists).
  injection Hv as Hv. apply QueryEscape_inj in Hk, Hv.
  destruct kv1, kv2. cbn in *. by subst.
Qed.

Lemma piece_clean kv :
  occurs "&" (piece kv) = false /\ (0 <? String.length (piece kv))%nat = true.
Proof.
  unfold piece. split.
  - rewrite !occurs_app.
    destruct (QueryEscape_clean kv.1) as (_ & -> & _).
    by destruct (QueryEscape_clean kv.2) as (_ & -> & _).
  - apply Nat.ltb_lt. rewrite KeyFacts.length_append.
    change (String.length ("=" ++ QueryEscape kv.2))
      with (S (String.length (QueryEscape kv.2))). lia.
Qed.

Lemma amp_shape ps : amp ps = "" \/ exists u, amp ps = String "&" u.
Proof. destruct ps; [by left | right; by eexists]. Qed.

Lemma amp_inj kvs1 : forall kvs2,
  amp (map piece kvs1) = amp (map piece kvs2) -> kvs1 = kvs2.
Proof.
  induction kvs1 as [|kv1 kvs1 IH]; intros [|kv2 kvs2] Heq; try done.
  cbn [map amp] in Heq. injection Heq as Heq.
  apply (split_first "&" (piece kv1) (piece kv2)) in Heq as [Hp Ht];
    try apply piece_clean; try apply amp_shape.
  apply piece_inj in Hp. apply IH in Ht. by subst.
Qed.

Lemma joinPieces_inj kvs1 kvs2 :
  joinPieces (map piece kvs1) = joinPieces (map piece kvs2) -> kvs1 = kvs2.
Proof.
  destruct kvs1 as [|kv1 kvs1], kvs2 as [|kv2 kvs2]; cbn [map joinPieces];
    intros Heq.
  - done.
  - exfalso. destruct (piece_clean kv2) as [_ Hlen].
    apply (f_equal String.length) in Heq.
    rewrite KeyFacts.length_append in Heq. apply Nat.ltb_lt in Hlen.
    cbn in Heq. lia.
  - exfalso. destruct (piece_clean kv1) as [_ Hlen].
    apply (f_equal String.length) in Heq.
    rewrite KeyFacts.length_append in Heq. apply Nat.ltb_lt in Hlen.
    cbn in Heq. lia.
  - apply (split_first "&" (piece kv1) (piece kv2)) in Heq as [Hp Ht];
      try apply piece_clean; try apply amp_shape.
    apply piece_inj in Hp. apply amp_inj in Ht. by subst.
Qed.

Lemma write_pieces kvs : forall buf,
  (0 <? String.length buf)%nat = true ->
  fold_left (fun buf kv => writePiece buf (piece kv)) kvs buf
  = buf ++ amp (map piece kvs).
Proof.
  induction kvs as [|kv kvs IH]; intros buf Hbuf.
  - cbn. by rewrite StoreFacts.append_nil_r.
  - cbn [fold_left map amp]. unfold writePiece at 2. rewrite Hbuf.
    rewrite IH.
    + by rewrite !StoreFacts.append_assoc.
    + apply Nat.ltb_lt. apply Nat.ltb_lt in Hbuf.
      rewrite KeyFacts.length_append. lia.
Qed.

Lemma write_all_pieces kvs :
  fold_left (fun buf kv => writePiece buf (piece kv)) kvs ""
  = joinPieces (map piece kvs).
Proof.
  destruct kvs as [|kv kvs]; [done|].
  cbn [fold_left map joinPieces]. unfold writePiece at 2. cbn [String.length].
  change (0 <? 0)%nat with false. cbn match.
  apply write_pieces, piece_clean.
Qed.

Lemma Encode_pieces v : Encode v = joinPieces (map piece (pairsOf v)).
Proof.
  rewrite <- write_all_pieces. unfold Encode, pairsOf.
  generalize "". induction (sortedKeys v) as [|k ks IH]; intros buf; [done|].
  cbn [fold_left flat_map]. rewrite fold_left_app, <- IH. f_equal.
  unfold encodeKey. generalize buf.
  induction (default [] (v !! k)) as [|x xs IHx]; intros buf'; [done|].
  cbn [fold_left map]. by rewrite IHx.
Qed.

(** *** From the pieces back to the values *)

Lemma sortedKeys_spec (v : HeaderMap) :
  NoDup (sortedKeys v) /\ forall k, k ∈ sortedKeys v <-> is_Some (v !! k).
Proof.
  assert (Hp : sortedKeys v ≡ₚ (map_to_list v).*1)
    by apply merge_sort_Permutation.
  split.
  - rewrite Hp. apply NoDup_fst_map_to_list.
  - intros k. rewrite Hp, list_elem_of_fmap. split.
    + intros ([k' x] & -> & Hin). apply elem_of_map_to_list in Hin. by eexists.
    + intros [x Hx]. exists (k, x). split; [done|].
      by apply elem_of_map_to_list.
Qed.

Lemma valuesOf_block k k' (xs : list string) :
  valuesOf k (map (pair k') xs) = if decide (k' = k) then xs else [].
Proof.
  unfold valuesOf. induction xs as [|x xs IH]; [by case_decide|].
  cbn [map]. rewrite filter_cons. cbn [fst].
  destruct (decide (k' = k)); [|done]. by rewrite fmap_cons, IH.
Qed.

Lemma valuesOf_app k (q1 q2 : list (string * string)) :
  valuesOf k (q1 ++ q2) = (valuesOf k q1 ++ valuesOf k q2)%list.
Proof. unfold valuesOf. by rewrite filter_app, fmap_app. Qed.

Lemma valuesOf_blocks (v : HeaderMap) k ks :
  NoDup ks ->
  valuesOf k (flat_map (fun k => map (pair k) (default [] (v !! k))) ks)
  = if decide (k ∈ ks) then default [] (v !! k) else [].
Proof.
  induction ks as [|k' ks IH]; intros Hnd.
  - case_decide as Hin; [by apply elem_of_nil in Hin | done].
  - apply NoDup_cons in Hnd as [Hnotin Hnd].
    cbn [flat_map]. rewrite valuesOf_app, valuesOf_block, (IH Hnd).
    destruct (decide (k' = k)) as [Heq|Hne].
    + subst k'. destruct (decide (k ∈ ks)); [done|].
      destruct (decide (k ∈ k :: ks)) as [|Hn]; [by rewrite app_nil_r|].
      exfalso. apply Hn. by left.
    + destruct (decide (k ∈ ks)) as [Hin|Hin];
        destruct (decide (k ∈ k' :: ks)) as [Hin'|Hin']; try done.
      * exfalso. apply Hin'. by right.
      * exfalso. apply elem_of_cons in Hin' as [->|?]; done.
Qed.

Lemma valuesOf_pairsOf (v : HeaderMap) k :
  valuesOf k (pairsOf v) = default [] (v !! k).
Proof.
  destruct (sortedKeys_spec v) as [Hnd Hin]. unfold pairsOf.
  rewrite (valuesOf_blocks v k _ Hnd). case_decide as Hk; [done|].
  destruct (v !! k) eqn:Hv; [|done]. exfalso. apply Hk, Hin. by eexists.
Qed.

(** A query as parsed never maps a name to no value at all, and deleting
    names does not change that. *)
Lemma filtered_lookup ignored r k :
  fold_left Del ignored (Query r) !! k
  = if decide (k ∈ ignored) then None
    else match valuesOf k (Http.Query r) with [] => None | vs => Some vs end.
Proof. by rewrite fold_Del_lookup, Query_lookup. Qed.

Lemma filtered_values ignored r1 r2 :
  Encode (fold_left Del ignored (Query r1))
  = Encode (fold_left Del ignored (Query r2)) ->
  forall k, k ∉ ignored ->
    valuesOf k (Http.Query r1) = valuesOf k (Http.Query r2).
Proof.
  rewrite !Encode_pieces. intros Heq%joinPieces_inj k Hk.
  apply (f_equal (valuesOf k)) in Heq. rewrite !valuesOf_pairsOf in Heq.
  rewrite !filtered_lookup, !decide_False in Heq by done.
  destruct (valuesOf k (Http.Query r1)), (valuesOf k (Http.Query r2)); done.
Qed.

Lemma Encode_clean v : occurs ":" (Encode v) = false.
Proof.
  rewrite Encode_pieces.
  assert (Hpiece : forall kv, occurs ":" (piece kv) = false).
  { intros kv. unfold piece. rewrite !occurs_app.
    destruct (QueryEscape_clean kv.1) as (-> & _).
    by destruct (QueryEscape_clean kv.2) as (-> & _). }
  assert (Hamp : forall kvs, occurs ":" (amp (map piece kvs)) = false).
  { induction kvs as [|kv kvs IH]; [done|].
    cbn [map amp]. by rewrite !occurs_app, Hpiece, IH. }
  destruct (pairsOf v) as [|kv kvs]; [done|].
  cbn [map joinPieces]. by rewrite occurs_app, Hpiece, Hamp.
Qed.

Lemma raw_parts config r1 r2 :
  hasColon (Method r1) = false -> hasColon (Method r2) = false ->
  rawKey config r1 = rawKey config r2 ->
  Method r1 = Method r2 /\ Path r1 = Path r2
  /\ Encode (fold_left Del (IgnoreParams config) (Query r1))
     = Encode (fold_left Del (IgnoreParams config) (Query r2)).
Proof.
  unfold rawKey, hasColon. intros H1 H2 Heq.
  apply (inj (String.app (KeyPrefix config))) in Heq.
  apply (inj (String.app ":")) in Heq.
  apply (split_first ":" (Method r1) (Method r2)) in Heq as [Hm Heq];
    try done; try (right; by eexists).
  apply (inj (String.app ":")) in Heq.
  by apply (split_last ":" (Path r1) (Path r2)) in Heq as [Hp He];
    try apply Encode_clean.
Qed.

(** Short keys lose nothing: two requests whose keys are not hashed have
    the same key only if they have the same method and path and every
    parameter that is not ignored has the same values in the same order. *)
Theorem GetKey_injective config r1 r2 :
  hasColon (Method r1) = false ->
  hasColon (Method r2) = false ->
  (String.length (rawKey config r1) <= 200)%nat ->
  (String.length (rawKey config r2) <= 200)%nat ->
  GetKey config r1 = GetKey config r2 ->
  Method r1 = Method r2 /\ Path r1 = Path r2
  /\ forall k, k ∉ IgnoreParams config ->
       valuesOf k (Http.Query r1) = valuesOf k (Http.Query r2).
Proof.
  intros H1 H2 Hl1 Hl2. rewrite !KeyFacts.GetKey_raw by done. intros Heq.
  destruct (raw_parts config r1 r2 H1 H2 Heq) as (Hm & Hp & He).
  split; [done|]. split; [done|]. by apply filtered_values.
Qed.

(** [Encode] is one to one on parsed queries: two requests whose queries
    are encoded alike have the same values under every name. *)
Theorem Encode_injective r1 r2 :
  Encode (Query r1) = Encode (Query r2) -> Query r1 = Query r2.
Proof.
  intros Heq. apply map_eq. intros k. rewrite !Query_lookup.
  by rewrite (filtered_values [] r1 r2 Heq k) by apply not_elem_of_nil.
Qed.

Lemma GetKey_injective_witness :
  Method reordered1 = Method reordered2 /\ Path reordered1 = Path reordered2
  /\ forall k, k ∉ IgnoreParams config ->
       valuesOf k (Http.Query reordered1) = valuesOf k (Http.Query reordered2).
Proof.
  apply (GetKey_injective config reordered1 reordered2).
  - reflexivity.
  - reflexivity.
  - vm_compute. lia.
  - vm_compute. lia.
  - vm_compute. reflexivity.
Defined.

Lemma Encode_injective_witness :
  Query MoreSamples.shuffled1 = Query MoreSamples.shuffled2.
Proof.
  apply (Encode_injective MoreSamples.shuffled1 MoreSamples.shuffled2).
  vm_compute. reflexivity.
Defined.

End EncodeFacts.

(** ** What the cache stores and what it leaves alone *)
Module StoreGateFacts.
Import Middleware Cache Spec Samples Script MoreSamples.

Lemma ShouldCache_excluded config r p :
  p ∈ ExcludePaths config -> String.prefix p (Path r) = true ->
  ShouldCache config r = false.
Proof.
  intros Hin Hpre. unfold ShouldCache.
  destruct (negb (Method r =? "GET")%string); [done|].
  assert (existsb (fun path => String.prefix path (Path r)) (ExcludePaths config)
          = true) as ->; [|done].
  apply existsb_exists. exists p. split; [by apply list_elem_of_In | done].
Qed.

Lemma NewRedisCache_fields config :
  ExcludePaths (NewRedisCache config) = ExcludePaths config
  /\ IgnoreParams (NewRedisCache config) = IgnoreParams config
  /\ KeyPrefix (NewRedisCache config) = KeyPrefix config
  /\ TTL (NewRedisCache config) <> 0.
Proof.
  unfold NewRedisCache. destruct (Z.eqb_spec (TTL config) 0); cbn; [|done].
  repeat split. discriminate.
Qed.

Section WithSerializer.
Context `{Serializer}.

Lemma WithCache_not_cacheable config next W (i : ResponseWriter W) r (w : W) g :
  ShouldCache (NewRedisCache config) r = false ->
  Strategy config = IsOther \/ Method r = "GET" ->
  WithCache config next W i r w g = next W i r w g.
Proof.
  intros Hc Hs. unfold WithCache.
  assert (Haside : CacheAside (NewRedisCache config) next W i r w g = next W i r w g)
    by (unfold CacheAside; by rewrite Hc).
  destruct (Strategy config) eqn:Hst; [|done].
  destruct Hs as [|Hget]; [done|].
  unfold WriteThrough. by rewrite Hget.
Qed.

(** Requests under an excluded path prefix never reach the cache: however
    many of them are served, they are served exactly as by the next handler
    alone, so Redis holds nothing of them.  (Under the Write-Through
    strategy this is so for the GET requests.) *)
Theorem excluded_never_stored config next rs g :
  Forall (fun r =>
            (exists p, p ∈ ExcludePaths config /\ String.prefix p (Path r) = true)
            /\ (Strategy config = IsOther \/ Method r = "GET")) rs ->
  serve (WithCache config next) rs g = serve next rs g.
Proof.
  revert g. induction rs as [|r rs IH]; intros g Hall; [done|].
  apply Forall_cons in Hall as [[(p & Hin & Hpre) Hs] Hall].
  cbn [serve]. rewrite WithCache_not_cacheable; [|..|exact Hs].
  - destruct (next Conn _ r newConn g) as [c g1]. by rewrite IH.
  - apply (ShouldCache_excluded _ r p); [|done].
    by destruct (NewRedisCache_fields config) as [-> _].
Qed.

(** Write-Through stores a mutation only when the handler called
    [WriteHeader(200)] last: with any other captured status (201, 204, or
    none at all), the response passes through and the state is exactly as
    the handler left it. *)
Theorem WriteThrough_only_explicit_200 config f W (i : ResponseWriter W)
    r (w : W) g :
  (Method r =? "GET")%string = false ->
  lastStatus 0 (f r g).1 <> StatusOK ->
  WriteThrough config (scripted f) W i r w g = scripted f W i r w g.
Proof.
  intros Hm Hst. unfold WriteThrough. rewrite Hm. cbn [negb].
  rewrite FlowFacts.scripted_capture, FlowFacts.scripted_plain.
  destruct (WriterFacts.capture_applyOps (f r g).1 (NewCacheResponseWriter w))
    as (Hi & _ & Hs).
  rewrite Hs, Hi. cbn [NewCacheResponseWriter status inner].
  by destruct (Z.eqb_spec (lastStatus 0 (f r g).1) StatusOK).
Qed.

(** Write-Through never refreshes what a read would fetch: after a
    mutating request, the key of any GET request fetches what it fetched
    in the state the handler left (keys taken unhashed, methods being
    tokens). *)
Theorem WriteThrough_leaves_reads config f W (i : ResponseWriter W)
    r (w : W) g rGet :
  (Method r =? "GET")%string = false ->
  Method rGet = "GET" ->
  Token.hasColon (Method r) = false ->
  (String.length (rawKey config r) <= 200)%nat ->
  (String.length (rawKey config rGet) <= 200)%nat ->
  Fetch (GetKey config rGet) (WriteThrough config (scripted f) W i r w g).2
  = Fetch (GetKey config rGet) (scripted f W i r w g).2.
Proof.
  intros Hm Hget Hcolon Hl Hlget.
  assert (Hne : GetKey config r <> GetKey config rGet).
  { rewrite !KeyFacts.GetKey_raw by done. intros Heq.
    apply EncodeFacts.raw_parts in Heq as [Heq _]; [|done|by rewrite Hget].
    rewrite Heq, Hget in Hm. discriminate. }
  unfold WriteThrough. rewrite Hm. cbn [negb].
  rewrite FlowFacts.scripted_capture, FlowFacts.scripted_plain. cbn [fst snd].
  destruct (status _ =? StatusOK); cbn [snd]; [|done].
  match goal with
  | |- Fetch ?k' (Store ?c ?k ?v ?g0).2 = _ =>
      destruct (StoreFacts.Store_frame c k k' v g0 Hne) as [Hr Hk]
  end.
  by apply StoreFacts.Fetch_ext.
Qed.

End WithSerializer.

Lemma excluded_never_stored_witness :
  serve (@WithCache SexpSerializer sampleConfig (origin "[]"))
    [adminRequest; adminRequest] cold
  = serve (origin "[]") [adminRequest; adminRequest] cold.
Proof.
  apply (@excluded_never_stored SexpSerializer sampleConfig (origin "[]")
           [adminRequest; adminRequest] cold).
  repeat constructor; try (exists "/admin"; split; [by left | reflexivity]);
    by right.
Defined.

Lemma WriteThrough_only_explicit_200_witness :
  @WriteThrough SexpSerializer config (scripted createContact) Conn _
    postContacts newConn cold
  = scripted createContact Conn _ postContacts newConn cold.
Proof.
  apply (@WriteThrough_only_explicit_200 SexpSerializer config createContact
           Conn _ postContacts newConn cold).
  - reflexivity.
  - vm_compute. discriminate.
Defined.

Lemma WriteThrough_leaves_reads_witness :
  @Fetch SexpSerializer (GetKey config getContacts)
    (@WriteThrough SexpSerializer config (scripted listContacts) Conn _
       postContacts newConn warm).2
  = @Fetch SexpSerializer (GetKey config getContacts)
      (scripted listContacts Conn _ postContacts newConn warm).2.
Proof.
  apply (@WriteThrough_leaves_reads SexpSerializer config listContacts
           Conn _ postContacts newConn warm getContacts).
  - reflexivity.
  - reflexivity.
  - reflexivity.
  - vm_compute. lia.
  - vm_compute. lia.
Defined.

End StoreGateFacts.

(** ** Monitoring and logging *)
Module TelemetryFacts.
Import Middleware Spec Samples Script Orderly MoreSamples Telemetry.

Lemma status_applyOps {W} `{ResponseWriter W} ops : forall sw : statusWriter W,
  applyOps ops sw
  = {| embedded := applyOps ops (embedded sw);
       status := lastStatus (status sw) ops |}.
Proof.
  induction ops as [|op ops IH]; intros sw; [by destruct sw|].
  unfold applyOps in *. cbn [fold_left]. rewrite IH. by destruct op.
Qed.

Lemma onWorld_scripted f W (i : ResponseWriter W) r (w : W) g :
  onWorld (scripted f) W i r w g
  = (applyOps (f r (world g)).1 w, setWorld (f r (world g)).2 g).
Proof. unfold onWorld, scripted. by destruct (f r (world g)). Qed.

Lemma WithLogging_scripted f W (i : ResponseWriter W) r (w : W) g :
  let out := f (WithContext "log-request" r) (world g) in
  WithLogging (onWorld (scripted f)) W i r w g
  = (applyOps out.1 w,
     logPrintf {| lineMethod := Method r; linePath := Path r;
                  lineStatus := lastStatus 0 out.1;
                  lineDuration := Time.Since (clock out.2) (clock (world g));
                  lineIP := RemoteAddr r |}
       (setWorld out.2 g)).
Proof.
  cbn zeta. unfold WithLogging. rewrite onWorld_scripted, status_applyOps.
  reflexivity.
Qed.



(** The logged status is not always the status sent: when the handler
    writes a body without calling [WriteHeader], the client receives 200
    and the log line says 0. *)
Theorem implicit_200_logged_as_0 f r g :
  let out := f (WithContext "log-request" r) (world g) in
  callsWriteHeader out.1 = false ->
  callsWrite out.1 = true ->
  let res := WithLogging (onWorld (scripted f)) Conn _ r newConn g in
  fst <$> sent res.1 = Some StatusOK
  /\ map lineStatus (logged res.2) = (map lineStatus (logged g) ++ [0])%list.
Proof.
  cbn zeta. intros Hh Hw. rewrite WithLogging_scripted. cbn [fst snd].
  split; [by apply WriterFacts.conn_implicit|].
  cbn [logPrintf logged setWorld]. rewrite map_app. cbn [map lineStatus].
  by rewrite WriterFacts.lastStatus_none.
Qed.

(** For a handler that sets its headers, calls [WriteHeader] once and then
    writes its body, the logged status is the status sent, when the code
    is a final one that the server accepts (101, or from 200 to 999). *)
Theorem orderly_status_logged f r g hs code bs :
  (f (WithContext "log-request" r) (world g)).1 = orderly hs code bs ->
  checkWriteHeaderCode code = true ->
  informational code = false ->
  let res := WithLogging (onWorld (scripted f)) Conn _ r newConn g in
  fst <$> sent res.1 = Some code
  /\ map lineStatus (logged res.2) = (map lineStatus (logged g) ++ [code])%list.
Proof.
  cbn zeta. intros Hops Hcode Hfinal. rewrite WithLogging_scripted. cbn [fst snd].
  rewrite Hops, (FlowFacts.conn_orderly_status _ _ _ Hcode Hfinal),
    FlowFacts.orderly_status.
  split; [done|]. cbn [logPrintf logged setWorld]. by rewrite map_app.
Qed.






(** A request turned away by the open breaker inside [WithLogging] is
    answered 503 and leaves one line in the log, with its method, path and
    remote address and with status 503; the handler behind the breaker is
    not called, and the state of the handlers and the collectors are as
    they were.  The duration that the line carries is left open. *)
Theorem rejection_logged next W (i : ResponseWriter W) r (w : W) g :
  failureThreshold (breaker (world g)) <= failures (breaker (world g)) ->
  Time.Since (clock (world g)) (lastFailure (breaker (world g)))
    <= resetTimeout (breaker (world g)) ->
  let res := WithLogging (onWorld (WithCircuitBreaker next)) W i r w g in
  res.1 = respondWithError w StatusServiceUnavailable
            "Service temporarily unavailable"
  /\ world res.2 = world g
  /\ httpRequestsTotal res.2 = httpRequestsTotal g
  /\ httpRequestDuration res.2 = httpRequestDuration g
  /\ exists line,
       logged res.2 = (logged g ++ [line])%list
       /\ lineMethod line = Method r /\ linePath line = Path r
       /\ lineStatus line = StatusServiceUnavailable
       /\ lineIP line = RemoteAddr r.
Proof.
  intros Hth Hin. cbn zeta. unfold WithLogging, onWorld.
  rewrite (PipelineFacts.open_rejects next _ _ _ _ (world g) Hth Hin).
  cbn [respondWithError respondWithJSON WriteHeader Write SetHeaderMap Header
       statusWriter_writer embedded status fst snd].
  repeat split. by eexists.
Qed.

Lemma implicit_200_logged_as_0_witness :
  fst <$> sent (WithLogging (onWorld (scripted TelemetrySamples.ping)) Conn _
                  getContacts newConn TelemetrySamples.fresh).1
  = Some StatusOK
  /\ map lineStatus
       (logged (WithLogging (onWorld (scripted TelemetrySamples.ping)) Conn _
                  getContacts newConn TelemetrySamples.fresh).2)
     = (map lineStatus (logged TelemetrySamples.fresh) ++ [0])%list.
Proof.
  apply (implicit_200_logged_as_0 TelemetrySamples.ping getContacts
           TelemetrySamples.fresh); reflexivity.
Defined.

Lemma orderly_status_logged_witness :
  fst <$> sent (WithLogging (onWorld (scripted createContact)) Conn _
                  postContacts newConn TelemetrySamples.fresh).1
  = Some 201
  /\ map lineStatus
       (logged (WithLogging (onWorld (scripted createContact)) Conn _
                  postContacts newConn TelemetrySamples.fresh).2)
     = (map lineStatus (logged TelemetrySamples.fresh) ++ [201])%list.
Proof.
  apply (orderly_status_logged createContact postContacts TelemetrySamples.fresh
           [("Content-Type", "application/json")] 201 ["{}"]); reflexivity.
Defined.


Lemma rejection_logged_witness :
  let res := WithLogging (onWorld (WithCircuitBreaker failing)) Conn _
               getContacts newConn TelemetrySamples.degraded in
  res.1 = unavailable
  /\ map lineStatus (logged res.2) = [StatusServiceUnavailable].
Proof.
  destruct (rejection_logged failing Conn _ getContacts newConn
              TelemetrySamples.degraded) as (Hres & _ & _ & _ & line & Hlog & Hline).
  - vm_compute. discriminate.
  - vm_compute. discriminate.
  - cbn zeta. split; [exact Hres|]. rewrite Hlog.
    destruct Hline as (_ & _ & Hstatus & _). cbn [logged TelemetrySamples.degraded
      start app map]. by rewrite Hstatus.
Defined.

End TelemetryFacts.

(** ** Validation of contacts *)
Module ContactFacts.
Import Contact ContactSamples.

Section WithLibrary.
Context `{Library}.

Lemma validateStringField_ok field name lo hi :
  TrimSpace "" = "" ->
  validateStringField field name lo hi = None ->
  StrValid field = true /\ Str field <> "".
Proof.
  intros Htrim. unfold validateStringField.
  destruct (StrValid field); cbn [negb orb]; [|done].
  destruct (String.eqb_spec (TrimSpace (Str field)) "") as [|Hne]; [done|].
  intros _. split; [done|]. intros Heq. by rewrite Heq in Hne.
Qed.

Lemma validateEmail_ok email :
  TrimSpace "" = "" ->
  validateEmail email = None ->
  StrValid email = true /\ Str email <> "" /\ isEmail (Str email) = true.
Proof.
  intros Htrim. unfold validateEmail.
  destruct (StrValid email); cbn [negb orb]; [|done].
  destruct (String.eqb_spec (TrimSpace (Str email)) "") as [|Hne]; [done|].
  destruct (isEmail (Str email)); cbn [negb]; [|done].
  intros _. repeat split. intros Heq. by rewrite Heq in Hne.
Qed.

Lemma validateRequiredID_ok id name :
  validateRequiredID id name = None -> IntValid id = true /\ 0 < Int64 id.
Proof.
  unfold validateRequiredID.
  destruct (IntValid id); cbn [negb orb]; [|done].
  destruct (Z.leb_spec (Int64 id) 0); [done|]. by split.
Qed.

(** A contact that passes [Validate] is complete, has a valid email
    address, and a phone number that is absent, empty or in E.164
    format. *)
Theorem Validate_complete c :
  TrimSpace "" = "" ->
  Validate c = None ->
  IsComplete c = true
  /\ isEmail (Str (Email c)) = true
  /\ (StrValid (Phone c) = true -> validateE164 (Str (Phone c)) = true).
Proof.
  intros Htrim. unfold Validate.
  destruct (validateStringField (FirstName c) _ _ _) eqn:H1; [done|].
  destruct (validateStringField (LastName c) _ _ _) eqn:H2; [done|].
  destruct (validateEmail (Email c)) eqn:H3; [done|].
  destruct (validatePhone (Phone c)) eqn:H4; [done|].
  destruct (validateRequiredID (ContactTypeID c) _) eqn:H5; [done|].
  intros H6.
  apply (validateStringField_ok _ _ _ _ Htrim) in H1 as [V1 N1].
  apply (validateStringField_ok _ _ _ _ Htrim) in H2 as [V2 N2].
  apply (validateEmail_ok _ Htrim) in H3 as (V3 & N3 & E3).
  apply validateRequiredID_ok in H5 as [V5 P5].
  apply validateRequiredID_ok in H6 as [V6 P6].
  split; [|split; [done|]].
  - unfold IsComplete. rewrite V1, V2, V3, V5, V6. cbn [andb].
    apply String.eqb_neq in N1, N2, N3. rewrite N1, N2, N3. cbn [negb andb].
    apply Z.ltb_lt in P5, P6. by rewrite P5, P6.
  - intros Vp. unfold validatePhone in H4. rewrite Vp in H4. cbn [negb orb] in H4.
    destruct (String.eqb_spec (Str (Phone c)) "") as [->|_]; [done|].
    by destruct (validateE164 (Str (Phone c))).
Qed.

Lemma validateFrom_ok cs : forall i,
  validateFrom i cs = None <-> Forall (fun c => Validate c = None) cs.
Proof.
  induction cs as [|c cs IH]; intros i; cbn [validateFrom].
  - split; [by constructor | done].
  - destruct (Validate c) eqn:Hv.
    + split; [done|]. intros Hall. apply Forall_cons in Hall as [Hc _].
      congruence.
    + rewrite IH. split; [by constructor|]. by intros [_ ?]%Forall_cons.
Qed.

(** [ValidateContacts] accepts exactly the lists that are not empty and
    whose contacts all pass [Validate]. *)
Theorem ValidateContacts_accepts cs :
  ValidateContacts cs = None
  <-> cs <> [] /\ Forall (fun c => Validate c = None) cs.
Proof.
  unfold ValidateContacts. destruct cs as [|c cs].
  - cbn. split; [done | by intros [? _]].
  - cbn [List.length Nat.eqb]. rewrite validateFrom_ok. split; [done | by intros [_ ?]].
Qed.

Lemma validateFrom_first cs : forall i j c err,
  cs !! j = Some c ->
  Validate c = Some err ->
  Forall (fun c => Validate c = None) (take j cs) ->
  validateFrom i cs
  = Some ("invalid contact at index " ++ pretty (Z.of_nat (i + j)) ++ ": " ++ err).
Proof.
  induction cs as [|c0 cs IH]; intros i j c err Hj Hv Hall; [done|].
  destruct j as [|j]; cbn [validateFrom].
  - injection Hj as ->. by rewrite Hv, Nat.add_0_r.
  - cbn [take] in Hall. apply Forall_cons in Hall as [Hc0 Hall].
    rewrite Hc0, (IH (S i) j c err Hj Hv Hall). by rewrite Nat.add_succ_r.
Qed.

(** [ValidateContacts] reports the first contact that fails, with its
    index and its own error. *)
Theorem ValidateContacts_first_invalid cs j c err :
  cs !! j = Some c ->
  Validate c = Some err ->
  Forall (fun c => Validate c = None) (take j cs) ->
  ValidateContacts cs
  = Some ("invalid contact at index " ++ pretty (Z.of_nat j) ++ ": " ++ err).
Proof.
  intros Hj Hv Hall. unfold ValidateContacts.
  destruct cs as [|c0 cs]; [done|]. cbn [List.length Nat.eqb].
  exact (validateFrom_first (c0 :: cs) 0 j c err Hj Hv Hall).
Qed.

Lemma keepPhone_clean s :
  forallb (fun c => Ascii.eqb c "+" || isDigit c)
    (list_ascii_of_string (keepPhone s)) = true.
Proof.
  induction s as [|c s IH]; [done|]. cbn [keepPhone].
  destruct (Ascii.eqb c "+" || isDigit c) eqn:Hc; [|done].
  cbn [list_ascii_of_string forallb]. by rewrite Hc, IH.
Qed.

(** [Sanitize] never changes which fields are set, nor the two
    identifiers, and it leaves in a phone number that is set nothing but
    plus signs and digits, whatever it was. *)
Theorem Sanitize_phone_clean c :
  StrValid (FirstName (Sanitize c)) = StrValid (FirstName c)
  /\ StrValid (LastName (Sanitize c)) = StrValid (LastName c)
  /\ StrValid (Email (Sanitize c)) = StrValid (Email c)
  /\ StrValid (Phone (Sanitize c)) = StrValid (Phone c)
  /\ ContactTypeID (Sanitize c) = ContactTypeID c
  /\ CategoryID (Sanitize c) = CategoryID c
  /\ (StrValid (Phone c) = true ->
      forallb (fun ch => Ascii.eqb ch "+" || isDigit ch)
        (list_ascii_of_string (Str (Phone (Sanitize c)))) = true)
  /\ (StrValid (Phone c) = false -> Phone (Sanitize c) = Phone c).
Proof.
  destruct c as [[s1 v1] [s2 v2] [s3 v3] [s4 v4] t g]. unfold Sanitize, mapValid.
  cbn. destruct v1, v2, v3, v4; repeat split; try done;
    intros _; apply keepPhone_clean.
Qed.

End WithLibrary.

Lemma Validate_complete_witness :
  @IsComplete ada = true
  /\ @isEmail asciiLibrary (Str (Email ada)) = true
  /\ (StrValid (Phone ada) = true -> validateE164 (Str (Phone ada)) = true).
Proof.
  apply (@Validate_complete asciiLibrary ada); reflexivity.
Defined.

Lemma ValidateContacts_first_invalid_witness :
  @ValidateContacts asciiLibrary [ada; nameless; ada]
  = Some ("invalid contact at index " ++ pretty 1 ++ ": "
            ++ "last name must be between 2 and 100 characters").
Proof.
  apply (@ValidateContacts_first_invalid asciiLibrary [ada; nameless; ada]
           1 nameless "last name must be between 2 and 100 characters").
  - reflexivity.
  - vm_compute. reflexivity.
  - repeat constructor.
Defined.

End ContactFacts.
